(** * The mesos-dns supervisor ([app.go]): lifecycle gate, plugin registration
    surface, configuration snapshots, leader watch and reload debouncer.

    The Go code is embedded shallowly.  Sequential methods of [*app] are
    functions that return the new receiver together with the calls they made
    on external collaborators (resolver, restful, logging, the error handler);
    a Go [panic] is the [Panic] outcome.  The goroutines started by [run] are
    a labelled transition system over the channels they share. *)

From Stdlib Require Import ZArith String List Lia Bool.
From stdpp Require Import base gmap list strings.
Import ListNotations.

Local Open Scope string_scope.
Local Open Scope list_scope.

(** ** Outcomes of Go calls *)

(** A call returns, panics, or cannot proceed now (a channel operation that
    is not ready; inside a [select] with a [default] case the default is
    taken instead). *)
Inductive outcome (A : Type) : Type :=
| Ok (a : A)
| Panic (msg : string)
| Block.
Arguments Ok {A} a.
Arguments Panic {A} msg.
Arguments Block {A}.

#[global] Instance outcome_ret : MRet outcome := fun A a => Ok a.

#[global] Instance outcome_bind : MBind outcome := fun A B k m =>
  match m with
  | Ok a => k a
  | Panic msg => Panic msg
  | Block => Block
  end.

(** ** Go channels

    A channel value is its capacity, the elements a receiver will get (oldest
    first: the buffered ones, then those of senders parked on the channel) and
    the closed flag.  A nil channel is [None : option (chan A)]. *)

Record chan (A : Type) : Type := MkChan {
  ch_cap : nat;
  ch_buf : list A;
  ch_closed : bool
}.
Arguments MkChan {A} _ _ _.
Arguments ch_cap {A} _.
Arguments ch_buf {A} _.
Arguments ch_closed {A} _.

(** [make(chan A, n)] *)
Definition make_chan {A} (n : nat) : chan A := MkChan n [] false.

(** [<-ch]: the oldest buffered element; a closed and drained channel yields
    the zero value at once; otherwise the receiver has to wait. *)
Definition chan_recv {A} (zero : A) (ch : chan A) : outcome (A * chan A) :=
  match ch_buf ch with
  | x :: rest => Ok (x, MkChan (ch_cap ch) rest (ch_closed ch))
  | [] => if ch_closed ch then Ok (zero, ch) else Block
  end.

(** Receiving from a possibly nil channel: nil is never ready. *)
Definition chan_recv_opt {A} (zero : A) (ch : option (chan A))
  : outcome (A * option (chan A)) :=
  match ch with
  | Some c => '(x, c') ← chan_recv zero c; Ok (x, Some c')
  | None => Block
  end.

(** Is the case [<-ch] of a [select] ready? *)
Definition chan_ready {A} (ch : chan A) : bool :=
  match ch_buf ch with
  | _ :: _ => true
  | [] => ch_closed ch
  end.

(** [ch <- x] as far as it can go at once: buffered when there is room, a
    panic on a closed channel, otherwise the sender has to wait. *)
Definition chan_send {A} (x : A) (ch : chan A) : outcome (chan A) :=
  if ch_closed ch then Panic "send on closed channel"
  else if Nat.ltb (length (ch_buf ch)) (ch_cap ch)
       then Ok (MkChan (ch_cap ch) (ch_buf ch ++ [x]) false)
       else Block.

(** [ch <- x] by a goroutine that waits until its value is taken: the value
    queues up behind the buffer. *)
Definition chan_offer {A} (x : A) (ch : chan A) : outcome (chan A) :=
  if ch_closed ch then Panic "send on closed channel"
  else Ok (MkChan (ch_cap ch) (ch_buf ch ++ [x]) false).

(** [close(ch)] *)
Definition chan_close {A} (ch : chan A) : outcome (chan A) :=
  if ch_closed ch then Panic "close of closed channel"
  else Ok (MkChan (ch_cap ch) (ch_buf ch) true).

(** ** Slices of strings and the heap of their backing arrays *)

Definition loc := positive.
Abbreviation heap := (gmap loc (list string)).

(** A slice header: backing array (nil slice: [None]), offset into it, and
    length.  The capacity is left out: [Config] neither reads nor appends. *)
Record slice : Type := MkSlice {
  s_ptr : option loc;
  s_off : nat;
  s_len : nat
}.

Definition nil_slice : slice := MkSlice None 0 0.

(** The elements seen through a slice. *)
Definition slice_read (h : heap) (s : slice) : list string :=
  match s_ptr s with
  | Some l =>
      match h !! l with
      | Some a => take (s_len s) (drop (s_off s) a)
      | None => []
      end
  | None => []
  end.

(** A slice is well formed in a heap when its window lies inside an
    allocated array (and a nil slice is empty). *)
Definition slice_ok (h : heap) (s : slice) : bool :=
  match s_ptr s with
  | Some l =>
      match h !! l with
      | Some a => Nat.leb (s_off s + s_len s) (length a)
      | None => false
      end
  | None => Nat.eqb (s_len s) 0
  end.

(** [make([]string, n)]: a fresh array of [n] empty strings. *)
Definition make_slice (n : nat) (h : heap) : slice * heap :=
  let l := fresh (dom h) in
  (MkSlice (Some l) 0 n, <[l := replicate n EmptyString]> h).

(** [copy(dst, src)]: the first [min(len(dst), len(src))] elements of [src]
    overwrite the start of [dst]. *)
Definition copy_slice (dst src : slice) (h : heap) : heap :=
  let n := Nat.min (s_len dst) (s_len src) in
  let elems := take n (slice_read h src) in
  match s_ptr dst with
  | Some l =>
      match h !! l with
      | Some a =>
          <[l := take (s_off dst) a ++ elems ++ drop (s_off dst + length elems) a]> h
      | None => h
      end
  | None => h
  end.

(** [s[i] = v]; out of range panics. *)
Definition slice_set (s : slice) (i : nat) (v : string) (h : heap) : outcome heap :=
  if Nat.ltb i (s_len s) then
    match s_ptr s with
    | Some l =>
        match h !! l with
        | Some a => Ok (<[l := <[s_off s + i := v]> a]> h)
        | None => Panic "invalid memory address"
        end
    | None => Panic "index out of range"
    end
  else Panic "index out of range".

(** ** Durations

    [time.Duration] is a signed 64-bit count of nanoseconds. *)

Local Open Scope Z_scope.

Definition wrap64 (z : Z) : Z := (z + 2 ^ 63) mod 2 ^ 64 - 2 ^ 63.

Definition time_Second : Z := 1000000000.

(** [zkInitialDetectionTimeout = 30 * time.Second] *)
Definition zkInitialDetectionTimeout : Z := wrap64 (30 * time_Second).

Local Close Scope Z_scope.

(** ** Values owned by collaborating packages

    The supervisor passes these around without looking inside them.  A Go
    value that may be nil is an [option]. *)

Class GoTypes : Type := {
  Reloader : Type;          (* plugins.Reloader *)
  WebService : Type;        (* restful.WebService *)
  FilterFn : Type;          (* a non-nil plugins.Filter *)
  RawSettings : Type;       (* the Settings of a plugin entry *)
  GoError : Type;           (* a non-nil error *)
  Resolver : Type;          (* resolver.Resolver *)
  errorHandlerFunc : Type   (* func(string, error) *)
}.

Section Supervisor.
Context {T : GoTypes}.

(** Modelled from the spec: the type of an entry of the plugin list is
    declared outside app.go, which reads its [Name] and its [Settings]. *)
Record PluginConfig : Type := MkPluginConfig {
  Name : string;
  Settings : RawSettings
}.

(** Modelled from the spec: the declaration of [records.Config] is not part
    of app.go.  The fields are those app.go reads ([Masters], [Resolvers],
    [Zk], [DnsOn], [HttpOn], [RefreshSeconds], [Plugins]), with the types
    the code uses them at: two [[]string], a string, two booleans, an [int]
    and a list that is ranged over in order and may be nil. *)
Record records_Config : Type := MkConfig {
  Masters : slice;
  Resolvers : slice;
  Zk : string;
  DnsOn : bool;
  HttpOn : bool;
  RefreshSeconds : Z;
  Plugins : option (list PluginConfig)
}.

(** Calls of the plugin registration surface, as a plugin issues them. *)
Inductive regcall : Type :=
| CallOnPreload (r : Reloader)
| CallOnPostload (r : Reloader)
| CallAddFilter (f : option FilterFn)
| CallRegisterWS (ws : WebService).

(** A plugin, seen from the supervisor: the registration calls its [Start]
    makes on the context it is given before returning, and whether [Start]
    returns a non-nil error channel. *)
Record Plugin : Type := MkPlugin {
  p_start : list regcall;
  p_errCh : bool
}.

(** Calls made on collaborators, in program order. *)
Inductive event : Type :=
| EvResolverOnPreload (rs : option Resolver) (r : Reloader)
| EvResolverOnPostload (rs : option Resolver) (r : Reloader)
| EvRestfulAdd (ws : WebService)
| EvLogError (fmt : string) (err : option GoError)
| EvLogVerbose (fmt : string) (arg : string)
| EvPluginStart (pluginName : string) (plugin : Plugin)
| EvGoErrForwarder (pluginName : string)
| EvGoDoneWatcher (pluginName : string)
| EvLaunchDNS (rs : option Resolver) (fs : list (option FilterFn))
| EvLaunchZK (rs : option Resolver) (timeout : Z)
| EvTimerAfterFunc (d : Z)
| EvTimerReset (d : Z)
| EvResolverReload (rs : option Resolver)
| EvResolverReloadReturn
| EvPrintCurLog
| EvErrHandler (eh : option errorHandlerFunc) (tag : string) (err : option GoError).

(** [type app struct] *)
Record app : Type := MkApp {
  config : records_Config;
  resolver : option Resolver;
  filters : list (option FilterFn);
  ready : chan unit;
  done : chan unit;
  errHandler : option errorHandlerFunc
}.

Definition set_filters (fs : list (option FilterFn)) (c : app) : app :=
  MkApp (config c) (resolver c) fs (ready c) (done c) (errHandler c).

Definition set_ready (r : chan unit) (c : app) : app :=
  MkApp (config c) (resolver c) (filters c) r (done c) (errHandler c).

Definition set_done (d : chan unit) (c : app) : app :=
  MkApp (config c) (resolver c) (filters c) (ready c) d (errHandler c).

(** *** The registration surface *)

Definition OnPreload (r : Reloader) (c : app) : outcome (app * list event) :=
  if chan_ready (ready c)
  then Panic "cannot OnPreload after initialization has completed"
  else Ok (c, [EvResolverOnPreload (resolver c) r]).

Definition OnPostload (r : Reloader) (c : app) : outcome (app * list event) :=
  if chan_ready (ready c)
  then Panic "cannot OnPostload after initialization has completed"
  else Ok (c, [EvResolverOnPostload (resolver c) r]).

Definition AddFilter (f : option FilterFn) (c : app) : outcome (app * list event) :=
  if chan_ready (ready c)
  then Panic "cannot AddFilter after initialization has completed"
  else match f with
       | Some _ => Ok (set_filters (filters c ++ [f]) c, [])
       | None => Ok (c, [])
       end.

Definition RegisterWS (ws : WebService) (c : app) : outcome (app * list event) :=
  if chan_ready (ready c)
  then Panic "cannot RegisterWS after initialization has completed"
  else Ok (c, [EvRestfulAdd ws]).

(** *** The configuration accessor *)

Definition Config (c : app) (h : heap) : records_Config * heap :=
  let cfg := config c in
  let '(masters, h) := make_slice (s_len (Masters (config c))) h in
  let h := copy_slice masters (Masters (config c)) h in
  let '(resolvers, h) := make_slice (s_len (Resolvers (config c))) h in
  let h := copy_slice resolvers (Resolvers (config c)) h in
  (MkConfig masters resolvers (Zk cfg) (DnsOn cfg) (HttpOn cfg)
            (RefreshSeconds cfg) None, h).

(** What a holder of a configuration value can observe of it. *)
Definition config_view (ch : records_Config * heap)
  : list string * list string * string * bool * bool * Z * option (list PluginConfig) :=
  let '(cfg, h) := ch in
  (slice_read h (Masters cfg), slice_read h (Resolvers cfg), Zk cfg,
   DnsOn cfg, HttpOn cfg, RefreshSeconds cfg, Plugins cfg).

(** *** Collaborators called by the supervisor

    The functions of other packages that app.go calls and whose results it
    uses.  [plugins_New] returns a plugin or a non-nil error; the two launch
    functions return the channels their goroutines will feed. *)

Class Externals : Type := {
  records_SetConfig : string -> records_Config;
  resolver_New : string -> records_Config -> Resolver;
  resolver_NewAPIPlugin : option Resolver -> Plugin;
  plugins_New : string -> RawSettings -> Plugin + GoError;
  resolver_LaunchDNS :
    option Resolver -> list (option FilterFn) -> option (chan (option GoError));
  resolver_LaunchZK :
    option Resolver -> Z -> option (chan unit) * option (chan (option GoError))
}.

Context {X : Externals}.

(** *** Initialization and the plugin launcher *)

Definition run_regcall (rc : regcall) (c : app) : outcome (app * list event) :=
  match rc with
  | CallOnPreload r => OnPreload r c
  | CallOnPostload r => OnPostload r c
  | CallAddFilter f => AddFilter f c
  | CallRegisterWS ws => RegisterWS ws c
  end.

(** [plugin.Start(pctx)]: the plugin's registration calls run on the
    supervisor one after the other before [Start] returns. *)
Fixpoint plugin_Start (calls : list regcall) (c : app) : outcome (app * list event) :=
  match calls with
  | [] => Ok (c, [])
  | rc :: rest =>
      '(c1, e1) ← run_regcall rc c;
      '(c2, e2) ← plugin_Start rest c1;
      Ok (c2, e1 ++ e2)
  end.

Definition launchPlugin (pluginName : string) (plugin : Plugin) (c : app)
  : outcome (app * list event) :=
  '(c1, es) ← plugin_Start (p_start plugin) c;
  Ok (c1, [EvLogVerbose "starting plugin %q" pluginName;
           EvPluginStart pluginName plugin]
          ++ es
          ++ (if p_errCh plugin then [EvGoErrForwarder pluginName] else [])
          ++ [EvGoDoneWatcher pluginName]).

(** One round of the loop over [c.config.Plugins]. *)
Definition launch_entry (pconfig : PluginConfig) (c : app) : outcome (app * list event) :=
  let pluginName := Name pconfig in
  match pluginName with
  | EmptyString =>
      Ok (c, [EvLogError "failed to register plugin with empty name" None])
  | String _ _ =>
      match plugins_New pluginName (Settings pconfig) with
      | inr err => Ok (c, [EvLogError "failed to create plugin: %v" (Some err)])
      | inl plugin => launchPlugin pluginName plugin c
      end
  end.

Fixpoint launch_third_party (ps : list PluginConfig) (c : app)
  : outcome (app * list event) :=
  match ps with
  | [] => Ok (c, [])
  | pconfig :: rest =>
      '(c1, e1) ← launch_entry pconfig c;
      '(c2, e2) ← launch_third_party rest c1;
      Ok (c2, e1 ++ e2)
  end.

(** [initialize], with the two package-level inputs it reads ([*cjson] and
    [version]) as arguments.  The deferred [close(c.ready)] runs last. *)
Definition initialize (cjson version : string) (c : app) : outcome (app * list event) :=
  if chan_ready (ready c) then Panic "app already initialized"
  else
    let cfg := records_SetConfig cjson in
    let c := MkApp cfg (Some (resolver_New version cfg)) (filters c)
                   (ready c) (done c) (errHandler c) in
    '(c1, e1) ← (if HttpOn (config c)
                 then launchPlugin "HTTP server" (resolver_NewAPIPlugin (resolver c)) c
                 else Ok (c, []));
    '(c2, e2) ← launch_third_party (default [] (Plugins (config c1))) c1;
    r ← chan_close (ready c2);
    Ok (set_ready r c2, e1 ++ e2).

Definition zero_Config : records_Config :=
  MkConfig nil_slice nil_slice EmptyString false false 0 None.

Definition newApp (eh : option errorHandlerFunc) (cjson version : string)
  : outcome (app * list event) :=
  initialize cjson version
    (MkApp zero_Config None [] (make_chan 0) (make_chan 0) eh).

(** *** Servers, leader watch and reloader *)

Definition launchServer {A} (enabled : bool)
    (f : unit -> option (chan A) * list event) : option (chan A) * list event :=
  if enabled then f tt else (None, []).

(** [beginLeaderWatch]: with a Zookeeper address the resolver's watcher is
    launched; otherwise a one-slot channel is made and a single value is
    sent into it, and [zkErr] keeps its zero value, the nil channel. *)
Definition beginLeaderWatch (c : app)
  : outcome (option (chan unit) * option (chan (option GoError)) * list event) :=
  match Zk (config c) with
  | String _ _ =>
      let '(newLeader, zkErr) :=
        resolver_LaunchZK (resolver c) zkInitialDetectionTimeout in
      Ok (newLeader, zkErr, [EvLaunchZK (resolver c) zkInitialDetectionTimeout])
  | EmptyString =>
      leader ← chan_send tt (make_chan 1);
      Ok (Some leader, None, [])
  end.

(** [launchReloader] makes the reload signal; [tryReload] is the closure it
    returns, as a function of that channel. *)
Definition launchReloader : chan unit := make_chan 1.

Definition tryReload (reloadSignal : chan unit) : outcome (chan unit) :=
  match chan_send tt reloadSignal with
  | Block => Ok reloadSignal
  | r => r
  end.

(** [reloadTimeout := time.Second * time.Duration(c.config.RefreshSeconds)] *)
Definition reloadTimeout (c : app) : Z :=
  wrap64 (time_Second * RefreshSeconds (config c)).

(** Where the reload goroutine stands: before [time.AfterFunc], waiting in
    [range reloadSignal], inside [c.resolver.Reload()], or past the loop. *)
Inductive worker_pc : Type := WStart | WAwait | WReloading | WExit.

(** The state shared by the goroutines that [run] starts. *)
Record run_state : Type := MkRun {
  r_app : app;
  r_newLeader : option (chan unit);
  r_dnsErr : option (chan (option GoError));
  r_zkErr : option (chan (option GoError));
  r_reloadSignal : chan unit;
  r_worker : worker_pc;
  r_timer : option Z;      (* the reload timer, when armed, and its delay *)
  r_trace : list event
}.

(** [run] up to the entry of its loop.  The deferred [close(c.done)] is
    [run_exit]; it runs when the loop is left. *)
Definition run (c : app) : outcome run_state :=
  if chan_ready (ready c) then
    if chan_ready (done c) then Panic "run already completed"
    else
      let '(dnsErr, e1) :=
        launchServer (DnsOn (config c)) (fun _ =>
          (resolver_LaunchDNS (resolver c) (filters c),
           [EvLaunchDNS (resolver c) (filters c)])) in
      '(newLeader, zkErr, e2) ← beginLeaderWatch c;
      Ok (MkRun c newLeader dnsErr zkErr launchReloader WStart None (e1 ++ e2))
  else Panic "cannot run, not yet initialized".

Definition run_exit (c : app) : outcome app :=
  d ← chan_close (done c);
  Ok (set_done d c).

(** The three cases of the [select] in the loop of [run]. *)
Inductive select_case : Type := CaseNewLeader | CaseDnsErr | CaseZkErr.

(** One iteration of the loop that takes case [k]. *)
Definition run_select (k : select_case) (s : run_state) : outcome run_state :=
  match k with
  | CaseNewLeader =>
      '(_, ch) ← chan_recv_opt tt (r_newLeader s);
      sig ← tryReload (r_reloadSignal s);
      Ok (MkRun (r_app s) ch (r_dnsErr s) (r_zkErr s) sig
                (r_worker s) (r_timer s) (r_trace s))
  | CaseDnsErr =>
      '(err, ch) ← chan_recv_opt None (r_dnsErr s);
      Ok (MkRun (r_app s) (r_newLeader s) ch (r_zkErr s) (r_reloadSignal s)
                (r_worker s) (r_timer s)
                (r_trace s ++ [EvErrHandler (errHandler (r_app s)) "DNS server" err]))
  | CaseZkErr =>
      '(err, ch) ← chan_recv_opt None (r_zkErr s);
      Ok (MkRun (r_app s) (r_newLeader s) (r_dnsErr s) ch (r_reloadSignal s)
                (r_worker s) (r_timer s)
                (r_trace s ++ [EvErrHandler (errHandler (r_app s)) "ZK watcher" err]))
  end.

(** One step of the reload goroutine. *)
Definition worker_step (s : run_state) : outcome run_state :=
  let d := reloadTimeout (r_app s) in
  let sig := r_reloadSignal s in
  match r_worker s with
  | WStart =>
      Ok (MkRun (r_app s) (r_newLeader s) (r_dnsErr s) (r_zkErr s) sig
                WAwait (Some d) (r_trace s ++ [EvTimerAfterFunc d]))
  | WAwait =>
      match ch_buf sig with
      | _ :: rest =>
          Ok (MkRun (r_app s) (r_newLeader s) (r_dnsErr s) (r_zkErr s)
                    (MkChan (ch_cap sig) rest (ch_closed sig))
                    WReloading (r_timer s)
                    (r_trace s ++ [EvResolverReload (resolver (r_app s))]))
      | [] =>
          if ch_closed sig
          then Ok (MkRun (r_app s) (r_newLeader s) (r_dnsErr s) (r_zkErr s) sig
                         WExit (r_timer s) (r_trace s))
          else Block
      end
  | WReloading =>
      Ok (MkRun (r_app s) (r_newLeader s) (r_dnsErr s) (r_zkErr s) sig
                WAwait (Some d)
                (r_trace s ++ [EvResolverReloadReturn; EvPrintCurLog; EvTimerReset d]))
  | WExit => Block
  end.

(** The reload timer expires and runs [tryReload]. *)
Definition timer_fire (s : run_state) : outcome run_state :=
  match r_timer s with
  | Some _ =>
      sig ← tryReload (r_reloadSignal s);
      Ok (MkRun (r_app s) (r_newLeader s) (r_dnsErr s) (r_zkErr s) sig
                (r_worker s) None (r_trace s))
  | None => Block
  end.

(** What the goroutines of the resolver package can do to the channels they
    returned.  Without a Zookeeper address no other goroutine holds the
    leader channel. *)
Inductive env_action : Type :=
| EnvLeader
| EnvCloseLeader
| EnvDnsErr (e : option GoError)
| EnvCloseDnsErr
| EnvZkErr (e : option GoError)
| EnvCloseZkErr.

Definition on_chan {A} (f : chan A -> outcome (chan A)) (ch : option (chan A))
  : outcome (option (chan A)) :=
  match ch with
  | Some c => c' ← f c; Ok (Some c')
  | None => Block
  end.

Definition env_step (a : env_action) (s : run_state) : outcome run_state :=
  let with_leader f :=
    match Zk (config (r_app s)) with
    | EmptyString => Block
    | String _ _ =>
        ch ← on_chan f (r_newLeader s);
        Ok (MkRun (r_app s) ch (r_dnsErr s) (r_zkErr s) (r_reloadSignal s)
                  (r_worker s) (r_timer s) (r_trace s))
    end in
  let with_dns f :=
    ch ← on_chan f (r_dnsErr s);
    Ok (MkRun (r_app s) (r_newLeader s) ch (r_zkErr s) (r_reloadSignal s)
              (r_worker s) (r_timer s) (r_trace s)) in
  let with_zk f :=
    ch ← on_chan f (r_zkErr s);
    Ok (MkRun (r_app s) (r_newLeader s) (r_dnsErr s) ch (r_reloadSignal s)
              (r_worker s) (r_timer s) (r_trace s)) in
  match a with
  | EnvLeader => with_leader (chan_offer tt)
  | EnvCloseLeader => with_leader chan_close
  | EnvDnsErr e => with_dns (chan_offer e)
  | EnvCloseDnsErr => with_dns chan_close
  | EnvZkErr e => with_zk (chan_offer e)
  | EnvCloseZkErr => with_zk chan_close
  end.

(** The labelled transition system. *)
Inductive label : Type :=
| LSelect (k : select_case)
| LWorker
| LTimer
| LEnv (a : env_action).

Definition step (l : label) (s : run_state) : outcome run_state :=
  match l with
  | LSelect k => run_select k s
  | LWorker => worker_step s
  | LTimer => timer_fire s
  | LEnv a => env_step a s
  end.

Fixpoint exec (ls : list label) (s : run_state) : outcome run_state :=
  match ls with
  | [] => Ok s
  | l :: rest => s1 ← step l s; exec rest s1
  end.

(** How often a schedule takes the leader case of the select. *)
Definition is_leader_case (l : label) : bool :=
  match l with LSelect CaseNewLeader => true | _ => false end.

Definition leader_fires (ls : list label) : nat :=
  length (List.filter is_leader_case ls).

(** The reload goroutine runs alone until it has to wait. *)
Fixpoint worker_drain (fuel : nat) (s : run_state) : run_state :=
  match fuel with
  | O => s
  | S fuel' =>
      match worker_step s with
      | Ok s1 => worker_drain fuel' s1
      | _ => s
      end
  end.

(** [n] calls of [tryReload] in a row. *)
Fixpoint tryReload_n (n : nat) (sig : chan unit) : outcome (chan unit) :=
  match n with
  | O => Ok sig
  | S n' => sig1 ← tryReload sig; tryReload_n n' sig1
  end.

Definition is_reload_return (e : event) : bool :=
  match e with EvResolverReloadReturn => true | _ => false end.

Definition is_reload_call (e : event) : bool :=
  match e with EvResolverReload _ => true | _ => false end.

(** Completed and started executions of [c.resolver.Reload()] in a trace. *)
Definition reloads_done (tr : list event) : nat :=
  length (List.filter is_reload_return tr).

Definition reloads_begun (tr : list event) : nat :=
  length (List.filter is_reload_call tr).

Definition set_signal (sig : chan unit) (s : run_state) : run_state :=
  MkRun (r_app s) (r_newLeader s) (r_dnsErr s) (r_zkErr s) sig
        (r_worker s) (r_timer s) (r_trace s).

Definition is_launch_zk (e : event) : bool :=
  match e with EvLaunchZK _ _ => true | _ => false end.

(** *** Reading a trace of initialization *)

(** The plugins started, in the order of their [Start] calls. *)
Definition started (es : list event) : list (string * Plugin) :=
  flat_map (fun e => match e with
                     | EvPluginStart n p => [(n, p)]
                     | _ => []
                     end) es.

(** The error-log lines written. *)
Definition logged_errors (es : list event) : list (string * option GoError) :=
  flat_map (fun e => match e with
                     | EvLogError m err => [(m, err)]
                     | _ => []
                     end) es.

(** What an entry of the plugin list should contribute: a started plugin when
    it has a name and resolves, ... *)
Definition entry_plugin (pconfig : PluginConfig) : list (string * Plugin) :=
  match Name pconfig with
  | EmptyString => []
  | String _ _ =>
      match plugins_New (Name pconfig) (Settings pconfig) with
      | inl plugin => [(Name pconfig, plugin)]
      | inr _ => []
      end
  end.

(** ... and one error-log line otherwise. *)
Definition entry_error (pconfig : PluginConfig) : list (string * option GoError) :=
  match Name pconfig with
  | EmptyString => [("failed to register plugin with empty name", None)]
  | String _ _ =>
      match plugins_New (Name pconfig) (Settings pconfig) with
      | inl _ => []
      | inr err => [("failed to create plugin: %v", Some err)]
      end
  end.

End Supervisor.

(** ** A concrete instance, for running the definitions *)

Definition demo_types : GoTypes := {|
  Reloader := nat;
  WebService := nat;
  FilterFn := nat;
  RawSettings := nat;
  GoError := string;
  Resolver := nat;
  errorHandlerFunc := nat
|}.

Definition demo_config (zk : string) (refresh : Z) : @records_Config demo_types :=
  @MkConfig demo_types
    (MkSlice (Some 1%positive) 0 2) (MkSlice (Some 2%positive) 1 1)
    zk true true refresh
    (Some [@MkPluginConfig demo_types "alpha" 0%nat;
           @MkPluginConfig demo_types EmptyString 1%nat;
           @MkPluginConfig demo_types "broken" 2%nat;
           @MkPluginConfig demo_types "omega" 3%nat]).

(** Plugin "alpha" registers a filter and a nil filter, "broken" does not
    resolve, every other name resolves to a plugin that registers a preload
    hook. *)
Definition demo_ext : @Externals demo_types :=
  @Build_Externals demo_types
    (fun path => demo_config EmptyString 60%Z)
    (fun _ _ => 7%nat)
    (fun _ => @MkPlugin demo_types [@CallRegisterWS demo_types 9%nat] false)
    (fun name settings =>
       if String.eqb name "broken" then inr "no such plugin"
       else if String.eqb name "alpha"
            then inl (@MkPlugin demo_types
                        [@CallAddFilter demo_types (Some 5%nat);
                         @CallAddFilter demo_types None] true)
            else inl (@MkPlugin demo_types
                        [@CallOnPreload demo_types settings] false))
    (fun _ _ => Some (make_chan 0))
    (fun _ _ => (Some (make_chan 1), Some (make_chan 0))).

Definition demo_heap : heap :=
  <[1%positive := ["10.0.0.1:5050"; "10.0.0.2:5050"]]>
  (<[2%positive := ["unused"; "8.8.8.8"]]> ∅).

(** An app before [initialize] has closed [ready], and one after. *)
Definition demo_app_open : @app demo_types :=
  @MkApp demo_types (demo_config EmptyString 60%Z) (Some 7%nat) [Some 4%nat]
         (make_chan 0) (make_chan 0) (Some 0%nat).

Definition demo_app_ready : @app demo_types :=
  @MkApp demo_types (demo_config EmptyString 60%Z) (Some 7%nat) [Some 4%nat]
         (MkChan 0 [] true) (make_chan 0) (Some 0%nat).


(** The state the concrete supervisor is in after a schedule. *)
Definition state_after (ls : list (@label demo_types)) : @run_state demo_types :=
  match s0 ← @run demo_types demo_ext demo_app_ready; exec ls s0 with
  | Ok s => s
  | _ => MkRun demo_app_ready None None None launchReloader WExit None []
  end.

(** A state whose watcher-error channel holds an error. *)
Definition demo_zk_state : @run_state demo_types :=
  MkRun demo_app_ready (Some (make_chan 1)) None
        (Some (MkChan 0 [Some "session expired"] false))
        launchReloader WAwait None [].

(** A supervisor with a Zookeeper address and the DNS server disabled, and
    the state it is in after a schedule. *)
Definition demo_app_zk : @app demo_types :=
  @MkApp demo_types
    (@MkConfig demo_types (MkSlice None 0 0) (MkSlice None 0 0)
       "zk://10.0.0.9:2181/mesos" false false 60%Z None)
    (Some 7%nat) [] (MkChan 0 [] true) (make_chan 0) (Some 0%nat).

Definition zk_state_after (ls : list (@label demo_types)) : @run_state demo_types :=
  match s0 ← @run demo_types demo_ext demo_app_zk; exec ls s0 with
  | Ok s => s
  | _ => MkRun demo_app_zk None None None launchReloader WExit None []
  end.

(** States whose DNS error channel holds two values, and is closed and
    drained. *)
Definition demo_dns_state : @run_state demo_types :=
  MkRun demo_app_ready (Some (make_chan 1))
        (Some (MkChan 0 [Some "socket closed"; None] false)) None
        launchReloader WAwait None [].

Definition demo_closed_state : @run_state demo_types :=
  MkRun demo_app_ready (Some (make_chan 1)) (Some (MkChan 0 [] true)) None
        launchReloader WAwait None [].

(** ** Invariants of the running supervisor *)

Section Invariants.
Context {T : GoTypes} {X : Externals}.

(** The reload signal is the one-slot channel made by [launchReloader],
    open, with nothing or one request in it. *)
Definition sig_ok (sig : chan unit) : Prop :=
  sig = MkChan 1 [] false \/ sig = MkChan 1 [tt] false.

(** Executions of [Reload] that have begun and not returned. *)
Definition in_flight (pc : worker_pc) : nat :=
  match pc with WReloading => 1 | _ => 0 end.

Definition reload_inv (s : run_state) : Prop :=
  sig_ok (r_reloadSignal s)
  /\ r_worker s <> WExit
  /\ reloads_begun (r_trace s) = reloads_done (r_trace s) + in_flight (r_worker s).

(** The states [run] can get into: from the entry of its loop, by the steps
    of the goroutines. *)
Definition reachable (c : app) (s : run_state) : Prop :=
  exists s0 ls, run c = Ok s0 /\ exec ls s0 = Ok s.

(** Without a Zookeeper address: no watcher-error channel, and a leader
    channel that holds its one event until the select has taken it ([k]
    counts how often it has). *)
Definition static_inv (k : nat) (s : run_state) : Prop :=
  Zk (config (r_app s)) = EmptyString
  /\ r_zkErr s = None
  /\ r_newLeader s = Some (MkChan 1 (repeat tt (1 - k)) false).

Definition fires (l : label) : nat := if is_leader_case l then 1 else 0.

(** [c'] differs from [c] at most in its filters. *)
Definition same_but_filters (c c' : app) : Prop :=
  ready c' = ready c /\ done c' = done c /\ config c' = config c
  /\ resolver c' = resolver c /\ errHandler c' = errHandler c.

End Invariants.

(** ** Further readings of states and traces *)

Section Readings.
Context {T : GoTypes} {X : Externals}.

(** [Done]: the channel a client waits on until [run] has completed. *)
Definition Done (c : app) : chan unit := done c.

(** What a registration call does when it is let through: the call it makes
    on a collaborator, ... *)
Definition call_event (rs : option Resolver) (rc : regcall) : list event :=
  match rc with
  | CallOnPreload r => [EvResolverOnPreload rs r]
  | CallOnPostload r => [EvResolverOnPostload rs r]
  | CallAddFilter _ => []
  | CallRegisterWS ws => [EvRestfulAdd ws]
  end.

(** ... and the filter it adds. *)
Definition call_filter (rc : regcall) : list (option FilterFn) :=
  match rc with
  | CallAddFilter (Some x) => [Some x]
  | _ => []
  end.

Definition is_registration_event (e : event) : bool :=
  match e with
  | EvResolverOnPreload _ _ | EvResolverOnPostload _ _ | EvRestfulAdd _ => true
  | _ => false
  end.

(** The hook and web-service registrations in a trace. *)
Definition registration_events (es : list event) : list event :=
  List.filter is_registration_event es.

(** The plugins for which a completion watcher, an error forwarder was
    spawned. *)
Definition done_watchers (es : list event) : list string :=
  flat_map (fun e => match e with EvGoDoneWatcher n => [n] | _ => [] end) es.

Definition err_forwarders (es : list event) : list string :=
  flat_map (fun e => match e with EvGoErrForwarder n => [n] | _ => [] end) es.

(** The errors the handler was called with under a tag. *)
Definition handler_calls (tag : string) (es : list event) : list (option GoError) :=
  flat_map (fun e => match e with
                     | EvErrHandler _ t err => if String.eqb t tag then [err] else []
                     | _ => []
                     end) es.

Definition is_launch_dns (e : event) : bool :=
  match e with EvLaunchDNS _ _ => true | _ => false end.

(** The steps of the timer and of the reload goroutine that take the
    goroutine from where it stands through one complete service of a
    request: it arms the timer if it has not started, finishes the reload it
    is in, and takes the queued request, or the one the timer queues when
    nothing is. *)
Definition service_schedule (s : run_state) : list label :=
  match r_worker s, ch_buf (r_reloadSignal s) with
  | WStart, [] => [LWorker; LTimer; LWorker; LWorker]
  | WStart, _ :: _ => [LWorker; LWorker; LWorker]
  | WAwait, [] => [LTimer; LWorker; LWorker]
  | WAwait, _ :: _ => [LWorker; LWorker]
  | WReloading, [] => [LWorker; LTimer; LWorker; LWorker]
  | WReloading, _ :: _ => [LWorker; LWorker; LWorker]
  | WExit, _ => []
  end.

(** What the goroutine adds to the trace before that service begins. *)
Definition service_prefix (s : run_state) : list event :=
  let d := reloadTimeout (r_app s) in
  match r_worker s with
  | WStart => [EvTimerAfterFunc d]
  | WReloading => [EvResolverReloadReturn; EvPrintCurLog; EvTimerReset d]
  | _ => []
  end.

(** The reload goroutine is waiting and nothing is queued for it. *)
Definition quiescent (s : run_state) : Prop :=
  r_worker s = WAwait /\ ch_buf (r_reloadSignal s) = [].

(** The filters a plugin adds and the registrations it makes while it
    starts. *)
Definition plugin_filters (np : string * Plugin) : list (option FilterFn) :=
  flat_map call_filter (p_start np.2).

Definition plugin_events (rs : option Resolver) (np : string * Plugin) : list event :=
  flat_map (call_event rs) (p_start np.2).

(** Going from [c] to [c'] with trace [es] launched exactly the plugins [ps]:
    their filters were appended, their registrations made on the resolver of
    [c], and each got its completion watcher and, with an error channel, its
    error forwarder. *)
Definition launched (c c' : app) (es : list event) (ps : list (string * Plugin)) : Prop :=
  c' = set_filters (filters c ++ flat_map plugin_filters ps) c
  /\ started es = ps
  /\ registration_events es = flat_map (plugin_events (resolver c)) ps
  /\ done_watchers es = map fst ps
  /\ err_forwarders es = map fst (List.filter (fun np => p_errCh np.2) ps).

(** The reload timer is either not armed or armed with [reloadTimeout], and
    it is not armed only while the reload goroutine has not started, a
    request is queued, or a reload is in progress. *)
Definition timer_inv (s : run_state) : Prop :=
  (r_timer s = None \/ r_timer s = Some (reloadTimeout (r_app s)))
  /\ (r_timer s = None ->
      r_worker s = WStart \/ ch_buf (r_reloadSignal s) = [tt]
      \/ r_worker s = WReloading).

End Readings.

(** * Properties *)

Section Lifecycle.
Context {T : GoTypes} {X : Externals}.

Lemma closed_chan_ready {A} (ch : chan A) :
  ch_closed ch = true -> chan_ready ch = true.
Proof. unfold chan_ready. destruct (ch_buf ch); auto. Qed.




End Lifecycle.

Section RunLoop.
Context {T : GoTypes} {X : Externals}.

(** Destructs the scrutinees of a computation known to return. *)
Ltac inv_ok H :=
  unfold mbind, outcome_bind in H;
  repeat match type of H with
         | context [match ?x with _ => _ end] =>
             destruct x eqn:?; simpl in H; try discriminate H
         | context [if ?x then _ else _] =>
             destruct x eqn:?; simpl in H; try discriminate H
         end.

Lemma step_app (l : label) (s s' : run_state) :
  step l s = Ok s' -> r_app s' = r_app s.
Proof.
  intros H. destruct l as [k| | |a]; simpl in H.
  - destruct k; unfold run_select in H; inv_ok H; inversion H; reflexivity.
  - unfold worker_step in H; inv_ok H; inversion H; reflexivity.
  - unfold timer_fire in H; inv_ok H; inversion H; reflexivity.
  - destruct a; unfold env_step in H; inv_ok H; inversion H; reflexivity.
Qed.

Lemma exec_app (ls : list label) :
  forall s s', exec ls s = Ok s' -> r_app s' = r_app s.
Proof.
  induction ls as [|l ls IH]; intros s s' H; simpl in H.
  - inversion H; reflexivity.
  - unfold mbind, outcome_bind in H. destruct (step l s) as [s1| |] eqn:E; try discriminate.
    rewrite (IH _ _ H). eapply step_app; eauto.
Qed.

Lemma run_app (c : app) (s : run_state) : run c = Ok s -> r_app s = c.
Proof.
  unfold run. intros H. inv_ok H. inversion H; reflexivity.
Qed.

Lemma run_not_ready (c : app) :
  chan_ready (ready c) = false -> run c = Panic "cannot run, not yet initialized".
Proof. intros H. unfold run. rewrite H. reflexivity. Qed.

Lemma run_after_done (c : app) :
  chan_ready (ready c) = true -> ch_closed (done c) = true ->
  run c = Panic "run already completed".
Proof.
  intros Hr Hd. unfold run. rewrite Hr.
  rewrite (closed_chan_ready _ Hd). reflexivity.
Qed.

Lemma run_gate_open (c : app) (s : run_state) :
  run c = Ok s -> chan_ready (ready c) = true /\ chan_ready (done c) = false.
Proof.
  unfold run. intros H.
  destruct (chan_ready (ready c)); [|discriminate].
  destruct (chan_ready (done c)); [discriminate|]. auto.
Qed.

(** C3, as the code has it.  [run] panics when [ready] is not yet closed, and
    panics when [done] is closed, which is the case for every call made after
    an earlier [run] has left its loop and run its deferred [close(c.done)].
    While an earlier [run] is still in its loop [done] is open, and a second
    call passes the gate and starts the servers again. *)
Theorem run_gate_misuse (c : app) :
  (chan_ready (ready c) = false ->
     run c = Panic "cannot run, not yet initialized")
  /\ (chan_ready (ready c) = true -> ch_closed (done c) = true ->
     run c = Panic "run already completed")
  /\ (forall s ls s' c',
        run c = Ok s -> exec ls s = Ok s' -> run_exit (r_app s') = Ok c' ->
        run c' = Panic "run already completed")
  /\ (forall s ls s',
        run c = Ok s -> exec ls s = Ok s' -> run (r_app s') = Ok s).
Proof.
  split; [apply run_not_ready|].
  split; [apply run_after_done|].
  split.
  - intros s ls s' c' Hrun Hexec Hexit.
    rewrite (exec_app _ _ _ Hexec), (run_app _ _ Hrun) in Hexit.
    destruct (run_gate_open _ _ Hrun) as [Hr Hd].
    unfold run_exit, chan_close in Hexit.
    destruct (ch_closed (done c)) eqn:Hc; simpl in Hexit; [discriminate|].
    inversion Hexit; subst; clear Hexit.
    apply run_after_done; simpl; auto.
  - intros s ls s' Hrun Hexec.
    rewrite (exec_app _ _ _ Hexec), (run_app _ _ Hrun). exact Hrun.
Qed.

(** *** The reload signal and the reload goroutine *)

Lemma reloads_begun_app (tr es : list event) :
  reloads_begun (tr ++ es) = reloads_begun tr + reloads_begun es.
Proof. unfold reloads_begun. rewrite List.filter_app, length_app. reflexivity. Qed.

Lemma reloads_done_app (tr es : list event) :
  reloads_done (tr ++ es) = reloads_done tr + reloads_done es.
Proof. unfold reloads_done. rewrite List.filter_app, length_app. reflexivity. Qed.

Lemma tryReload_sig_ok (sig : chan unit) :
  sig_ok sig -> tryReload sig = Ok (MkChan 1 [tt] false).
Proof. intros [-> | ->]; reflexivity. Qed.

Lemma tryReload_n_sig_ok (n : nat) (sig : chan unit) :
  sig_ok sig -> 1 <= n -> tryReload_n n sig = Ok (MkChan 1 [tt] false).
Proof.
  intros Hs Hn. destruct n as [|n]; [lia|]. clear Hn.
  revert sig Hs. induction n as [|n IH]; intros sig Hs.
  - simpl. rewrite (tryReload_sig_ok _ Hs). reflexivity.
  - change (tryReload_n (S (S n)) sig)
      with (sig1 ← tryReload sig; tryReload_n (S n) sig1).
    rewrite (tryReload_sig_ok _ Hs). simpl.
    apply (IH (MkChan 1 [tt] false)). right; reflexivity.
Qed.

Lemma run_reload_inv (c : app) (s : run_state) : run c = Ok s -> reload_inv s.
Proof.
  unfold run, launchServer, beginLeaderWatch. intros H.
  destruct (chan_ready (ready c)); [|discriminate].
  destruct (chan_ready (done c)); [discriminate|].
  destruct (DnsOn (config c)), (Zk (config c));
    try destruct (resolver_LaunchZK _ _); simpl in H;
    inversion H; subst; clear H;
    (split; [left; reflexivity | split; [discriminate | reflexivity]]).
Qed.

Lemma step_reload_inv (l : label) (s s' : run_state) :
  step l s = Ok s' -> reload_inv s -> reload_inv s'.
Proof.
  intros H (Hsig & Hpc & Hcnt). destruct l as [k| | |a]; simpl in H.
  - destruct k; unfold run_select in H.
    + rewrite (tryReload_sig_ok _ Hsig) in H. inv_ok H.
      inversion H; subst; clear H. simpl.
      split; [right; reflexivity | split; assumption].
    + inv_ok H. inversion H; subst; clear H. unfold reload_inv; simpl.
      rewrite reloads_begun_app, reloads_done_app. simpl.
      split; [assumption | split; [assumption | ]].
      unfold reloads_begun, reloads_done in *; simpl; lia.
    + inv_ok H. inversion H; subst; clear H. unfold reload_inv; simpl.
      rewrite reloads_begun_app, reloads_done_app. simpl.
      split; [assumption | split; [assumption | ]].
      unfold reloads_begun, reloads_done in *; simpl; lia.
  - unfold worker_step in H.
    destruct (r_worker s) eqn:Ew.
    + inversion H; subst; clear H. unfold reload_inv; simpl.
      rewrite reloads_begun_app, reloads_done_app.
      split; [assumption | split; [discriminate | ]].
      simpl in Hcnt. unfold reloads_begun, reloads_done in *; simpl; lia.
    + destruct Hsig as [Es | Es]; rewrite Es in H; simpl in H; [discriminate|].
      inversion H; subst; clear H. unfold reload_inv; simpl.
      rewrite reloads_begun_app, reloads_done_app.
      split; [left; reflexivity | split; [discriminate | ]].
      simpl in Hcnt. unfold reloads_begun, reloads_done in *; simpl; lia.
    + inversion H; subst; clear H. unfold reload_inv; simpl.
      rewrite reloads_begun_app, reloads_done_app.
      split; [assumption | split; [discriminate | ]].
      simpl in Hcnt. unfold reloads_begun, reloads_done in *; simpl; lia.
    + discriminate.
  - unfold timer_fire in H. rewrite (tryReload_sig_ok _ Hsig) in H.
    inv_ok H. inversion H; subst; clear H. unfold reload_inv; simpl.
    split; [right; reflexivity | split; assumption].
  - destruct a; unfold env_step in H; inv_ok H; inversion H; subst; clear H;
      (split; [assumption | split; assumption]).
Qed.

Lemma exec_reload_inv (ls : list label) :
  forall s s', exec ls s = Ok s' -> reload_inv s -> reload_inv s'.
Proof.
  induction ls as [|l ls IH]; intros s s' H Hinv; simpl in H.
  - inversion H; subst; assumption.
  - unfold mbind, outcome_bind in H.
    destruct (step l s) as [s1| |] eqn:E; try discriminate.
    eapply IH; eauto using step_reload_inv.
Qed.

Lemma reachable_reload_inv (c : app) (s : run_state) :
  reachable c s -> reload_inv s.
Proof.
  intros (s0 & ls & Hrun & Hexec).
  eapply exec_reload_inv; eauto using run_reload_inv.
Qed.

Lemma reachable_app (c : app) (s : run_state) : reachable c s -> r_app s = c.
Proof.
  intros (s0 & ls & Hrun & Hexec).
  rewrite (exec_app _ _ _ Hexec). apply run_app, Hrun.
Qed.

Lemma worker_drain_blocked (fuel : nat) (s : run_state) :
  worker_step s = Block -> worker_drain fuel s = s.
Proof. intros H. destruct fuel; simpl; [|rewrite H]; reflexivity. Qed.

Lemma tryReload_never_blocks (sig : chan unit) : tryReload sig <> Block.
Proof.
  unfold tryReload, chan_send.
  destruct (ch_closed sig); [discriminate|].
  destruct (Nat.ltb _ _); discriminate.
Qed.

(** C2.  In every state the running supervisor can reach, the reload signal
    has capacity 1 and holds at most one request; [tryReload] never waits;
    [n >= 1] calls in a row leave exactly one request pending whatever [n]
    is; and the reload goroutine, left to run until it has to wait, then
    completes one execution of [Reload] for that request, plus the one it was
    in the middle of, if any: between 1 and 2 in all, so fewer than [n] as
    soon as [n] exceeds 2. *)
Theorem reload_requests_coalesce (c : app) (s : run_state) (n fuel : nat) :
  reachable c s -> 1 <= n -> 4 <= fuel ->
  ch_cap (r_reloadSignal s) = 1
  /\ length (ch_buf (r_reloadSignal s)) <= 1
  /\ (forall sig, tryReload sig <> Block)
  /\ tryReload_n n (r_reloadSignal s) = Ok (MkChan 1 [tt] false)
  /\ let s' := worker_drain fuel (set_signal (MkChan 1 [tt] false) s) in
     worker_step s' = Block
     /\ ch_buf (r_reloadSignal s') = []
     /\ reloads_done (r_trace s')
        = reloads_done (r_trace s) + 1 + in_flight (r_worker s)
     /\ 1 <= reloads_done (r_trace s') - reloads_done (r_trace s) <= 2
     /\ (2 < n -> reloads_done (r_trace s') - reloads_done (r_trace s) <> n).
Proof.
  intros Hreach Hn Hfuel.
  destruct (reachable_reload_inv _ _ Hreach) as (Hsig & Hpc & _).
  split; [destruct Hsig as [-> | ->]; reflexivity|].
  split; [destruct Hsig as [-> | ->]; simpl; lia|].
  split; [apply tryReload_never_blocks|].
  split; [apply tryReload_n_sig_ok; assumption|].
  do 4 (destruct fuel as [|fuel]; [lia|]). clear Hfuel.
  destruct s as [a nl de ze sig pc tm tr]. simpl in Hpc |- *.
  unfold set_signal; simpl.
  destruct pc; try contradiction; cbn -[worker_drain];
    unfold worker_step; cbn;
    rewrite ?worker_drain_blocked by reflexivity; cbn;
    unfold reloads_done; rewrite !List.filter_app, !length_app; cbn;
    (split; [reflexivity | split; [reflexivity | split; [lia | split; lia]]]).
Qed.

(** C6.  When the select takes the leader case, the iteration calls
    [tryReload] once and does nothing else: afterwards the element is gone
    from the leader channel, the reload signal holds exactly one request
    (the new one, or the one that was pending already), and nothing was
    added to the trace of calls on collaborators. *)
Theorem leader_event_requests_one_reload
    (c : app) (s : run_state) (u : unit) (ch : option (chan unit)) :
  reachable c s ->
  chan_recv_opt tt (r_newLeader s) = Ok (u, ch) ->
  tryReload (r_reloadSignal s) = Ok (MkChan 1 [tt] false)
  /\ run_select CaseNewLeader s
     = Ok (MkRun (r_app s) ch (r_dnsErr s) (r_zkErr s)
                 (MkChan 1 [tt] false) (r_worker s) (r_timer s) (r_trace s))
  /\ (ch_buf (r_reloadSignal s) = [] \/ ch_buf (r_reloadSignal s) = [tt]).
Proof.
  intros Hreach Hrecv.
  destruct (reachable_reload_inv _ _ Hreach) as (Hsig & _).
  pose proof (tryReload_sig_ok _ Hsig) as Htry.
  split; [exact Htry|]. split.
  - unfold run_select. rewrite Hrecv. simpl. rewrite Htry. reflexivity.
  - destruct Hsig as [-> | ->]; auto.
Qed.

Lemma reloadTimeout_in_range (c : app) :
  (0 <= RefreshSeconds (config c) <= 9223372036)%Z ->
  reloadTimeout c = (1000000000 * RefreshSeconds (config c))%Z.
Proof.
  intros H. unfold reloadTimeout, wrap64, time_Second.
  rewrite Z.mod_small; lia.
Qed.

(** *** Watcher errors *)

Lemma launch_zk_app (tr es : list event) :
  List.filter is_launch_zk (tr ++ es)
  = List.filter is_launch_zk tr ++ List.filter is_launch_zk es.
Proof. apply List.filter_app. Qed.

Lemma step_no_launch_zk (l : label) (s s' : run_state) :
  step l s = Ok s' ->
  List.filter is_launch_zk (r_trace s') = List.filter is_launch_zk (r_trace s).
Proof.
  intros H. destruct l as [k| | |a]; simpl in H.
  - destruct k; unfold run_select in H; inv_ok H; inversion H; subst; simpl;
      rewrite ?launch_zk_app, ?app_nil_r; reflexivity.
  - unfold worker_step in H; inv_ok H; inversion H; subst; simpl;
      rewrite ?launch_zk_app, ?app_nil_r; reflexivity.
  - unfold timer_fire in H; inv_ok H; inversion H; reflexivity.
  - destruct a; unfold env_step in H; inv_ok H; inversion H; reflexivity.
Qed.

Lemma exec_no_launch_zk (ls : list label) :
  forall s s', exec ls s = Ok s' ->
  List.filter is_launch_zk (r_trace s') = List.filter is_launch_zk (r_trace s).
Proof.
  induction ls as [|l ls IH]; intros s s' H; simpl in H.
  - inversion H; reflexivity.
  - unfold mbind, outcome_bind in H.
    destruct (step l s) as [s1| |] eqn:E; try discriminate.
    rewrite (IH _ _ H). eapply step_no_launch_zk; eauto.
Qed.

(** The select takes the watcher-error case once for each queued error. *)
Lemma zk_errors_drained (errs : list (option GoError)) :
  forall (s : run_state) (cap : nat) (b : bool),
  r_zkErr s = Some (MkChan cap errs b) ->
  exec (repeat (LSelect CaseZkErr) (length errs)) s
  = Ok (MkRun (r_app s) (r_newLeader s) (r_dnsErr s) (Some (MkChan cap [] b))
              (r_reloadSignal s) (r_worker s) (r_timer s)
              (r_trace s
               ++ map (EvErrHandler (errHandler (r_app s)) "ZK watcher") errs)).
Proof.
  induction errs as [|e errs IH]; intros s cap b Hz.
  - destruct s; simpl in *; subst. rewrite app_nil_r. reflexivity.
  - change (exec (repeat (LSelect CaseZkErr) (length (e :: errs))) s)
      with (s1 ← run_select CaseZkErr s;
            exec (repeat (LSelect CaseZkErr) (length errs)) s1).
    unfold run_select. rewrite Hz. simpl.
    erewrite IH by reflexivity. simpl.
    rewrite <- app_assoc. reflexivity.
Qed.

(** C7, as the code has it.  An error received from the watcher's error
    channel is passed to the error handler under the tag "ZK watcher" and the
    iteration does nothing else; the errors queued on the channel reach the
    handler one per iteration, in order, each under that tag; and no step of
    the running supervisor launches the watcher again. *)
Theorem zk_error_forwarded
    (s : run_state) (err : option GoError) (ch : option (chan (option GoError))) :
  chan_recv_opt None (r_zkErr s) = Ok (err, ch) ->
  run_select CaseZkErr s
  = Ok (MkRun (r_app s) (r_newLeader s) (r_dnsErr s) ch (r_reloadSignal s)
              (r_worker s) (r_timer s)
              (r_trace s ++ [EvErrHandler (errHandler (r_app s)) "ZK watcher" err]))
  /\ (forall cap errs b,
      r_zkErr s = Some (MkChan cap errs b) ->
      exec (repeat (LSelect CaseZkErr) (length errs)) s
      = Ok (MkRun (r_app s) (r_newLeader s) (r_dnsErr s) (Some (MkChan cap [] b))
                  (r_reloadSignal s) (r_worker s) (r_timer s)
                  (r_trace s
                   ++ map (EvErrHandler (errHandler (r_app s)) "ZK watcher") errs)))
  /\ (forall ls s', exec ls s = Ok s' ->
      List.filter is_launch_zk (r_trace s') = List.filter is_launch_zk (r_trace s)).
Proof.
  intros Hrecv. split; [|split].
  - unfold run_select. rewrite Hrecv. reflexivity.
  - intros cap errs b. apply zk_errors_drained.
  - intros ls s'. apply exec_no_launch_zk.
Qed.

(** *** Static mode *)

Lemma run_static_inv (c : app) (s : run_state) :
  Zk (config c) = EmptyString -> run c = Ok s -> static_inv 0 s.
Proof.
  unfold run, launchServer, beginLeaderWatch. intros Hz H. rewrite Hz in H.
  destruct (chan_ready (ready c)); [|discriminate].
  destruct (chan_ready (done c)); [discriminate|].
  destruct (DnsOn (config c)); simpl in H; inversion H; subst; clear H;
    (split; [exact Hz | split; reflexivity]).
Qed.

Lemma step_static_inv (l : label) (s s' : run_state) (k : nat) :
  step l s = Ok s' -> static_inv k s ->
  static_inv (k + fires l) s' /\ (fires l = 1 -> k = 0).
Proof.
  intros H (Hz & Hze & Hnl). destruct l as [sc| | |a]; simpl in H.
  - destruct sc; unfold run_select in H.
    + rewrite Hnl in H. destruct k as [|k]; simpl in H.
      * inv_ok H. inversion H; subst; clear H.
        split; [|reflexivity].
        split; [exact Hz | split; [exact Hze | reflexivity]].
      * discriminate.
    + inv_ok H. inversion H; subst; clear H. unfold fires; simpl.
      rewrite Nat.add_0_r.
      split; [|discriminate]. split; [exact Hz | split; assumption].
    + rewrite Hze in H. discriminate.
  - unfold worker_step in H. inv_ok H; inversion H; subst; clear H;
      unfold fires; simpl; rewrite Nat.add_0_r;
      (split; [|discriminate]; split; [exact Hz | split; assumption]).
  - unfold timer_fire in H. inv_ok H; inversion H; subst; clear H;
      unfold fires; simpl; rewrite Nat.add_0_r;
      (split; [|discriminate]; split; [exact Hz | split; assumption]).
  - destruct a; unfold env_step in H; cbv zeta in H; rewrite ?Hz, ?Hze in H;
      try discriminate;
      inv_ok H; inversion H; subst; clear H;
      unfold fires; simpl; rewrite Nat.add_0_r;
      (split; [|discriminate]; split; [exact Hz | split; [reflexivity | assumption]]).
Qed.

Lemma leader_fires_cons (l : label) (ls : list label) :
  leader_fires (l :: ls) = fires l + leader_fires ls.
Proof. unfold leader_fires, fires. simpl. destruct (is_leader_case l); reflexivity. Qed.

Lemma exec_static_inv (ls : list label) :
  forall s s' k, k <= 1 -> static_inv k s -> exec ls s = Ok s' ->
  k + leader_fires ls <= 1 /\ static_inv (k + leader_fires ls) s'.
Proof.
  induction ls as [|l ls IH]; intros s s' k Hk Hinv H; simpl in H.
  - inversion H; subst. unfold leader_fires; simpl. rewrite Nat.add_0_r. auto.
  - unfold mbind, outcome_bind in H.
    destruct (step l s) as [s1| |] eqn:E; try discriminate.
    destruct (step_static_inv _ _ _ _ E Hinv) as [Hinv1 Hfire].
    assert (Hk1 : k + fires l <= 1).
    { unfold fires in *. destruct (is_leader_case l); [rewrite Hfire by reflexivity|]; lia. }
    destruct (IH _ _ _ Hk1 Hinv1 H) as [Hle Hinv'].
    rewrite leader_fires_cons, Nat.add_assoc. auto.
Qed.

Lemma run_static_start (c : app) :
  Zk (config c) = EmptyString ->
  chan_ready (ready c) = true -> chan_ready (done c) = false ->
  run c
  = Ok (MkRun c (Some (MkChan 1 [tt] false))
              (if DnsOn (config c)
               then resolver_LaunchDNS (resolver c) (filters c) else None)
              None (MkChan 1 [] false) WStart None
              (if DnsOn (config c)
               then [EvLaunchDNS (resolver c) (filters c)] else [])).
Proof.
  intros Hz Hr Hd. unfold run, launchServer, beginLeaderWatch.
  rewrite Hr, Hd, Hz. destruct (DnsOn (config c)); reflexivity.
Qed.

(** C5.  Without a Zookeeper address, [beginLeaderWatch] returns a leader
    channel of capacity 1 that already holds one event, and the nil channel
    for watcher errors, without calling the resolver.  [run], called with
    [ready] closed and [done] open, then reaches its loop in a state where
    the leader case of the select is ready, and taking it leaves one reload
    request pending; with the DNS server off it is the only case that is
    ready.  In every state reached from there, the watcher-error case is not
    ready; the leader case has been taken at most once; as long as it has not
    been taken it is ready; once it has been taken it is never ready again,
    and nobody else can send on the leader channel. *)
Theorem static_mode_leader_fires_once (c : app) :
  Zk (config c) = EmptyString ->
  chan_ready (ready c) = true -> chan_ready (done c) = false ->
  let s0 := MkRun c (Some (MkChan 1 [tt] false))
                  (if DnsOn (config c)
                   then resolver_LaunchDNS (resolver c) (filters c) else None)
                  None (MkChan 1 [] false) WStart None
                  (if DnsOn (config c)
                   then [EvLaunchDNS (resolver c) (filters c)] else []) in
  beginLeaderWatch c = Ok (Some (MkChan 1 [tt] false), None, [])
  /\ run c = Ok s0
  /\ exec [LSelect CaseNewLeader] s0
     = Ok (MkRun c (Some (MkChan 1 [] false)) (r_dnsErr s0) None
                 (MkChan 1 [tt] false) WStart None (r_trace s0))
  /\ (DnsOn (config c) = false ->
      run_select CaseDnsErr s0 = Block /\ run_select CaseZkErr s0 = Block)
  /\ forall ls s, exec ls s0 = Ok s ->
       r_zkErr s = None
       /\ run_select CaseZkErr s = Block
       /\ (forall e, env_step (EnvZkErr e) s = Block)
       /\ leader_fires ls <= 1
       /\ (leader_fires ls = 0 ->
           run_select CaseNewLeader s
           = Ok (MkRun (r_app s) (Some (MkChan 1 [] false)) (r_dnsErr s) None
                       (MkChan 1 [tt] false) (r_worker s) (r_timer s) (r_trace s)))
       /\ (leader_fires ls = 1 ->
           run_select CaseNewLeader s = Block
           /\ env_step EnvLeader s = Block).
Proof.
  intros Hz Hr Hd s0.
  pose proof (run_static_start c Hz Hr Hd) as Hrun. fold s0 in Hrun.
  split; [unfold beginLeaderWatch; rewrite Hz; reflexivity|].
  split; [exact Hrun|].
  split; [reflexivity|].
  split.
  { intros Hoff. unfold s0. rewrite Hoff. split; reflexivity. }
  intros ls s Hexec.
  destruct (exec_static_inv ls s0 s 0 (Nat.le_0_l 1)
              (run_static_inv _ _ Hz Hrun) Hexec) as [Hle (Hz' & Hze & Hnl)].
  simpl in Hle, Hnl.
  assert (Hinv : reload_inv s).
  { eapply exec_reload_inv; eauto using run_reload_inv. }
  destruct Hinv as (Hsig & _).
  split; [exact Hze|].
  split; [unfold run_select; rewrite Hze; reflexivity|].
  split; [intros e; unfold env_step; rewrite Hze; reflexivity|].
  split; [exact Hle|]. split.
  + intros H0. rewrite H0 in Hnl. simpl in Hnl.
    unfold run_select. rewrite Hnl. simpl.
    rewrite (tryReload_sig_ok _ Hsig). simpl. rewrite Hze. reflexivity.
  + intros H1. rewrite H1 in Hnl. simpl in Hnl. split.
    * unfold run_select. rewrite Hnl. reflexivity.
    * unfold env_step. rewrite Hz'. reflexivity.
Qed.

End RunLoop.

Section Initialization.
Context {T : GoTypes} {X : Externals}.

Lemma same_but_filters_trans (c1 c2 c3 : app) :
  same_but_filters c1 c2 -> same_but_filters c2 c3 -> same_but_filters c1 c3.
Proof.
  intros (A1 & A2 & A3 & A4 & A5) (B1 & B2 & B3 & B4 & B5).
  repeat split; congruence.
Qed.

Lemma started_app (es1 es2 : list event) :
  started (es1 ++ es2) = started es1 ++ started es2.
Proof. unfold started. apply flat_map_app. Qed.

Lemma logged_errors_app (es1 es2 : list event) :
  logged_errors (es1 ++ es2) = logged_errors es1 ++ logged_errors es2.
Proof. unfold logged_errors. apply flat_map_app. Qed.

Lemma run_regcall_open (rc : regcall) (c : app) :
  chan_ready (ready c) = false ->
  exists c' es, run_regcall rc c = Ok (c', es)
    /\ same_but_filters c c' /\ started es = [] /\ logged_errors es = [].
Proof.
  intros H. destruct rc as [r|r|f|ws]; simpl;
    unfold OnPreload, OnPostload, AddFilter, RegisterWS; rewrite H;
    try destruct f; eexists _, _; (split; [reflexivity|]);
    repeat split.
Qed.

Lemma plugin_Start_open (calls : list regcall) :
  forall c, chan_ready (ready c) = false ->
  exists c' es, plugin_Start calls c = Ok (c', es)
    /\ same_but_filters c c' /\ started es = [] /\ logged_errors es = [].
Proof.
  induction calls as [|rc calls IH]; intros c H; simpl.
  - exists c, []. repeat split.
  - destruct (run_regcall_open rc c H) as (c1 & e1 & E1 & S1 & St1 & L1).
    rewrite E1. simpl.
    assert (H1 : chan_ready (ready c1) = false).
    { destruct S1 as (-> & _). exact H. }
    destruct (IH c1 H1) as (c2 & e2 & E2 & S2 & St2 & L2).
    rewrite E2. simpl. exists c2, (e1 ++ e2).
    split; [reflexivity|].
    split; [eapply same_but_filters_trans; eauto|].
    rewrite started_app, logged_errors_app, St1, St2, L1, L2. auto.
Qed.

Lemma launchPlugin_open (pluginName : string) (plugin : Plugin) (c : app) :
  chan_ready (ready c) = false ->
  exists c' es, launchPlugin pluginName plugin c = Ok (c', es)
    /\ same_but_filters c c'
    /\ started es = [(pluginName, plugin)] /\ logged_errors es = [].
Proof.
  intros H. unfold launchPlugin.
  destruct (plugin_Start_open (p_start plugin) c H) as (c1 & es & E & S & St & L).
  rewrite E. simpl. eexists _, _. split; [reflexivity|].
  split; [exact S|].
  unfold started, logged_errors in *. simpl.
  rewrite !flat_map_app, St, L.
  destruct (p_errCh plugin); auto.
Qed.

Lemma launch_entry_open (pconfig : PluginConfig) (c : app) :
  chan_ready (ready c) = false ->
  exists c' es, launch_entry pconfig c = Ok (c', es)
    /\ same_but_filters c c'
    /\ started es = entry_plugin pconfig
    /\ logged_errors es = entry_error pconfig.
Proof.
  intros H. unfold launch_entry, entry_plugin, entry_error.
  destruct (Name pconfig) as [|a n] eqn:En.
  - exists c, [EvLogError "failed to register plugin with empty name" None].
    repeat split.
  - destruct (plugins_New (String a n) (Settings pconfig)) as [plugin|err].
    + apply launchPlugin_open, H.
    + exists c, [EvLogError "failed to create plugin: %v" (Some err)].
      repeat split.
Qed.

Lemma launch_third_party_open (ps : list PluginConfig) :
  forall c, chan_ready (ready c) = false ->
  exists c' es, launch_third_party ps c = Ok (c', es)
    /\ same_but_filters c c'
    /\ started es = flat_map entry_plugin ps
    /\ logged_errors es = flat_map entry_error ps.
Proof.
  induction ps as [|pconfig ps IH]; intros c H; simpl.
  - exists c, []. repeat split.
  - destruct (launch_entry_open pconfig c H) as (c1 & e1 & E1 & S1 & St1 & L1).
    rewrite E1. simpl.
    assert (H1 : chan_ready (ready c1) = false).
    { destruct S1 as (-> & _). exact H. }
    destruct (IH c1 H1) as (c2 & e2 & E2 & S2 & St2 & L2).
    rewrite E2. simpl. exists c2, (e1 ++ e2).
    split; [reflexivity|].
    split; [eapply same_but_filters_trans; eauto|].
    rewrite started_app, logged_errors_app, St1, St2, L1, L2. auto.
Qed.

(** C8.  Construction always completes and closes [ready].  The plugins
    started are the built-in one when enabled, then, in the order of the
    configured list, exactly the entries that have a name and resolve; each
    entry with an empty name or a failed resolution leaves one line in the
    error log and nothing else, so every valid entry is started wherever it
    stands in the list. *)
Theorem plugin_setup_failures_skipped
    (eh : option errorHandlerFunc) (cjson version : string) :
  let cfg := records_SetConfig cjson in
  let ps := default [] (Plugins cfg) in
  exists c' es,
    newApp eh cjson version = Ok (c', es)
    /\ ch_closed (ready c') = true
    /\ config c' = cfg
    /\ started es
       = (if HttpOn cfg
          then [("HTTP server", resolver_NewAPIPlugin (Some (resolver_New version cfg)))]
          else [])
         ++ flat_map entry_plugin ps
    /\ logged_errors es = flat_map entry_error ps
    /\ (forall pconfig np, In pconfig ps -> In np (entry_plugin pconfig) ->
        In np (started es)).
Proof.
  intros cfg ps. unfold newApp, initialize. simpl.
  fold cfg.
  set (c0 := MkApp cfg (Some (resolver_New version cfg)) [] (make_chan 0)
                   (make_chan 0) eh).
  assert (H0 : chan_ready (ready c0) = false) by reflexivity.
  assert (Hb : exists c1 e1,
             (if HttpOn cfg
              then launchPlugin "HTTP server"
                     (resolver_NewAPIPlugin (Some (resolver_New version cfg))) c0
              else Ok (c0, [])) = Ok (c1, e1)
             /\ same_but_filters c0 c1
             /\ started e1
                = (if HttpOn cfg
                   then [("HTTP server",
                          resolver_NewAPIPlugin (Some (resolver_New version cfg)))]
                   else [])
             /\ logged_errors e1 = []).
  { destruct (HttpOn cfg).
    - apply launchPlugin_open, H0.
    - exists c0, []. repeat split. }
  destruct Hb as (c1 & e1 & E1 & S1 & St1 & L1). rewrite E1. simpl.
  assert (H1 : chan_ready (ready c1) = false).
  { destruct S1 as (-> & _). exact H0. }
  assert (Hcfg1 : config c1 = cfg) by (destruct S1 as (_ & _ & -> & _); reflexivity).
  rewrite Hcfg1. fold ps.
  destruct (launch_third_party_open ps c1 H1) as (c2 & e2 & E2 & S2 & St2 & L2).
  rewrite E2. simpl.
  assert (Hr2 : ready c2 = make_chan 0).
  { destruct S2 as (-> & _), S1 as (-> & _). reflexivity. }
  unfold chan_close. rewrite Hr2. simpl.
  eexists _, _. split; [reflexivity|]. simpl.
  split; [reflexivity|].
  split; [destruct S2 as (_ & _ & -> & _); exact Hcfg1|].
  rewrite started_app, logged_errors_app, St1, St2, L1, L2. simpl.
  split; [reflexivity|]. split; [reflexivity|].
  intros pconfig np Hin Hnp. apply in_or_app. right.
  apply in_flat_map. exists pconfig. auto.
Qed.

End Initialization.

Section Snapshot.
Context {T : GoTypes}.

Lemma fresh_unallocated (h : heap) : h !! fresh (dom h) = None.
Proof. apply not_elem_of_dom, is_fresh. Qed.

Lemma slice_ok_allocated (h : heap) (s : slice) (l : loc) :
  slice_ok h s = true -> s_ptr s = Some l -> is_Some (h !! l).
Proof.
  unfold slice_ok. intros H E. rewrite E in H.
  destruct (h !! l); [eauto | discriminate].
Qed.

Lemma slice_ok_not_fresh (h : heap) (s : slice) (l : loc) :
  slice_ok h s = true -> h !! l = None -> s_ptr s <> Some l.
Proof.
  intros H Hl E. destruct (slice_ok_allocated _ _ _ H E) as [a Ha]. congruence.
Qed.

Lemma slice_read_insert_ne (h : heap) (l : loc) (a : list string) (s : slice) :
  s_ptr s <> Some l -> slice_read (<[l := a]> h) s = slice_read h s.
Proof.
  unfold slice_read. intros H. destruct (s_ptr s) as [l'|]; [|reflexivity].
  rewrite lookup_insert_ne by congruence. reflexivity.
Qed.

Lemma slice_ok_insert_ne (h : heap) (l : loc) (a : list string) (s : slice) :
  s_ptr s <> Some l -> slice_ok (<[l := a]> h) s = slice_ok h s.
Proof.
  unfold slice_ok. intros H. destruct (s_ptr s) as [l'|]; [|reflexivity].
  rewrite lookup_insert_ne by congruence. reflexivity.
Qed.

Lemma slice_read_length (h : heap) (s : slice) :
  slice_ok h s = true -> length (slice_read h s) = s_len s.
Proof.
  unfold slice_ok, slice_read. destruct (s_ptr s) as [l|].
  - destruct (h !! l) as [a|]; [|discriminate].
    intros H. apply Nat.leb_le in H.
    rewrite length_take, length_drop. lia.
  - intros H. apply Nat.eqb_eq in H. simpl. lia.
Qed.

(** Reading two heaps that agree on the array of a slice. *)
Lemma slice_read_agree (h h' : heap) (s : slice) :
  (forall l, s_ptr s = Some l -> h' !! l = h !! l) ->
  slice_read h' s = slice_read h s /\ slice_ok h' s = slice_ok h s.
Proof.
  unfold slice_read, slice_ok. intros H. destruct (s_ptr s) as [l|]; [|auto].
  rewrite (H l eq_refl). auto.
Qed.

(** [make] followed by [copy] from a slice of the same length stores the
    elements of the source in the fresh array. *)
Lemma make_then_copy (h : heap) (src : slice) :
  slice_ok h src = true ->
  copy_slice (make_slice (s_len src) h).1 src (make_slice (s_len src) h).2
  = <[fresh (dom h) := slice_read h src]> h.
Proof.
  intros Hok. unfold make_slice, copy_slice. simpl.
  rewrite lookup_insert_eq.
  pose proof (fresh_unallocated h) as Hf.
  rewrite slice_read_insert_ne by (eapply slice_ok_not_fresh; eauto).
  rewrite Nat.min_id.
  rewrite firstn_all2 by (rewrite slice_read_length by exact Hok; lia).
  rewrite slice_read_length by exact Hok.
  rewrite drop_replicate, Nat.sub_diag. simpl.
  rewrite app_nil_r. apply insert_insert_eq.
Qed.

(** The snapshot and the heap after [Config], in closed form. *)
Lemma Config_closed_form (c : app) (h : heap) :
  slice_ok h (Masters (config c)) = true ->
  slice_ok h (Resolvers (config c)) = true ->
  let lm := fresh (dom h) in
  let hm := <[lm := slice_read h (Masters (config c))]> h in
  let lr := fresh (dom hm) in
  Config c h
  = (MkConfig (MkSlice (Some lm) 0 (s_len (Masters (config c))))
              (MkSlice (Some lr) 0 (s_len (Resolvers (config c))))
              (Zk (config c)) (DnsOn (config c)) (HttpOn (config c))
              (RefreshSeconds (config c)) None,
     <[lr := slice_read h (Resolvers (config c))]> hm).
Proof.
  intros Hm Hr lm hm lr. unfold Config.
  pose proof (make_then_copy h _ Hm) as E1.
  destruct (make_slice (s_len (Masters (config c))) h) as [m h1] eqn:M1.
  simpl in E1. rewrite E1. fold lm hm.
  assert (Hr' : slice_ok hm (Resolvers (config c)) = true).
  { unfold hm. rewrite slice_ok_insert_ne; [exact Hr|].
    eapply slice_ok_not_fresh; [exact Hr | apply fresh_unallocated]. }
  pose proof (make_then_copy hm _ Hr') as E2.
  destruct (make_slice (s_len (Resolvers (config c))) hm) as [r h2] eqn:M2.
  simpl in E2. rewrite E2. fold lr.
  unfold make_slice in M1, M2. inversion M1; inversion M2; subst.
  unfold hm at 2. rewrite slice_read_insert_ne; [reflexivity|].
  eapply slice_ok_not_fresh; [exact Hr | apply fresh_unallocated].
Qed.

Lemma slice_read_whole (h : heap) (l : loc) (a : list string) (n : nat) :
  h !! l = Some a -> length a <= n -> slice_read h (MkSlice (Some l) 0 n) = a.
Proof.
  intros Hl Hn. unfold slice_read. simpl. rewrite Hl, drop_0.
  apply firstn_all2, Hn.
Qed.

Lemma config_view_Config (c : app) (h : heap) :
  slice_ok h (Masters (config c)) = true ->
  slice_ok h (Resolvers (config c)) = true ->
  config_view (Config c h)
  = (slice_read h (Masters (config c)), slice_read h (Resolvers (config c)),
     Zk (config c), DnsOn (config c), HttpOn (config c),
     RefreshSeconds (config c), None).
Proof.
  intros Hm Hr. rewrite (Config_closed_form c h Hm Hr). unfold config_view.
  cbv zeta. simpl.
  set (lm := fresh (dom h)).
  set (hm := <[lm := slice_read h (Masters (config c))]> h).
  set (lr := fresh (dom hm)).
  assert (Hne : lr <> lm).
  { intros E. pose proof (fresh_unallocated hm) as Hf. fold lr in Hf.
    rewrite E in Hf. unfold hm in Hf. rewrite lookup_insert_eq in Hf.
    discriminate. }
  rewrite (slice_read_whole _ lm (slice_read h (Masters (config c)))).
  - rewrite (slice_read_whole _ lr (slice_read h (Resolvers (config c)))).
    + reflexivity.
    + apply lookup_insert_eq.
    + rewrite slice_read_length by exact Hr. lia.
  - rewrite lookup_insert_ne by exact Hne. apply lookup_insert_eq.
  - rewrite slice_read_length by exact Hm. lia.
Qed.

Lemma slice_set_frame (s : slice) (i : nat) (v : string) (h h2 : heap) :
  slice_set s i v h = Ok h2 ->
  forall l, s_ptr s <> Some l -> h2 !! l = h !! l.
Proof.
  unfold slice_set. intros H l Hl.
  destruct (Nat.ltb i (s_len s)); [|discriminate].
  destruct (s_ptr s) as [l'|]; [|discriminate].
  destruct (h !! l') as [a|]; [|discriminate].
  inversion H; subst. apply lookup_insert_ne. congruence.
Qed.

(** C4.  For a supervisor whose two address slices are well formed, the
    snapshot returned by [Config] has its plugin list nil, shows the same
    master and resolver addresses and the same scalar fields as the internal
    configuration, and keeps its two address lists in arrays that were not
    allocated before the call, distinct from each other and from the
    supervisor's.  The call changes no array that existed, so the internal
    lists read as before.  Whatever is then written into the snapshot's
    arrays (any heap that differs only there, in particular after an element
    assignment through either slice), the internal lists still read the same
    and the next call of [Config] shows the same values as the first. *)
Theorem Config_snapshot_isolated (c : app) (h : heap) :
  slice_ok h (Masters (config c)) = true ->
  slice_ok h (Resolvers (config c)) = true ->
  let snap := (Config c h).1 in
  let h1 := (Config c h).2 in
  Plugins snap = None
  /\ config_view (Config c h)
     = (slice_read h (Masters (config c)), slice_read h (Resolvers (config c)),
        Zk (config c), DnsOn (config c), HttpOn (config c),
        RefreshSeconds (config c), None)
  /\ (exists lm lr,
        s_ptr (Masters snap) = Some lm /\ s_ptr (Resolvers snap) = Some lr
        /\ lm <> lr /\ h !! lm = None /\ h !! lr = None
        /\ s_ptr (Masters (config c)) <> Some lm
        /\ s_ptr (Masters (config c)) <> Some lr
        /\ s_ptr (Resolvers (config c)) <> Some lm
        /\ s_ptr (Resolvers (config c)) <> Some lr)
  /\ (forall l, is_Some (h !! l) -> h1 !! l = h !! l)
  /\ slice_read h1 (Masters (config c)) = slice_read h (Masters (config c))
  /\ slice_read h1 (Resolvers (config c)) = slice_read h (Resolvers (config c))
  /\ (forall h2,
        (forall l, s_ptr (Masters snap) <> Some l ->
                   s_ptr (Resolvers snap) <> Some l -> h2 !! l = h1 !! l) ->
        slice_read h2 (Masters (config c)) = slice_read h (Masters (config c))
        /\ slice_read h2 (Resolvers (config c)) = slice_read h (Resolvers (config c))
        /\ config_view (Config c h2) = config_view (Config c h))
  /\ (forall i v h2,
        slice_set (Masters snap) i v h1 = Ok h2
        \/ slice_set (Resolvers snap) i v h1 = Ok h2 ->
        config_view (Config c h2) = config_view (Config c h)).
Proof.
  intros Hm Hr.
  pose proof (config_view_Config c h Hm Hr) as Hview.
  pose proof (Config_closed_form c h Hm Hr) as E. cbv zeta in E.
  set (lm := fresh (dom h)) in *.
  set (hm := <[lm := slice_read h (Masters (config c))]> h) in *.
  set (lr := fresh (dom hm)) in *.
  set (V := config_view (Config c h)) in *.
  rewrite E. cbv zeta. simpl.
  assert (Hlm : h !! lm = None) by apply fresh_unallocated.
  assert (Hne : lm <> lr).
  { intros Eq. pose proof (fresh_unallocated hm) as Hf. fold lr in Hf.
    rewrite <- Eq in Hf. unfold hm in Hf. rewrite lookup_insert_eq in Hf.
    discriminate. }
  assert (Hlr : h !! lr = None).
  { pose proof (fresh_unallocated hm) as Hf. fold lr in Hf.
    unfold hm in Hf. rewrite lookup_insert_ne in Hf by exact Hne. exact Hf. }
  pose proof (slice_ok_not_fresh _ _ _ Hm Hlm) as Pmm.
  pose proof (slice_ok_not_fresh _ _ _ Hm Hlr) as Pmr.
  pose proof (slice_ok_not_fresh _ _ _ Hr Hlm) as Prm.
  pose proof (slice_ok_not_fresh _ _ _ Hr Hlr) as Prr.
  assert (Hframe : forall l, is_Some (h !! l) ->
            (<[lr := slice_read h (Resolvers (config c))]> hm) !! l = h !! l).
  { intros l [a Ha]. unfold hm.
    rewrite !lookup_insert_ne by congruence. reflexivity. }
  assert (Hmut : forall h2,
            (forall l, Some lm <> Some l -> Some lr <> Some l ->
               h2 !! l = (<[lr := slice_read h (Resolvers (config c))]> hm) !! l) ->
            slice_read h2 (Masters (config c)) = slice_read h (Masters (config c))
            /\ slice_read h2 (Resolvers (config c)) = slice_read h (Resolvers (config c))
            /\ config_view (Config c h2) = V).
  { intros h2 Hagree.
    assert (Ha : forall s, slice_ok h s = true ->
              slice_read h2 s = slice_read h s /\ slice_ok h2 s = true).
    { intros s Hs.
      destruct (slice_read_agree h h2 s) as [R1 R2].
      - intros l Hl. destruct (slice_ok_allocated _ _ _ Hs Hl) as [a Ha].
        rewrite Hagree by congruence.
        apply Hframe. eauto.
      - rewrite R1, R2. auto. }
    destruct (Ha _ Hm) as [Rm Om]. destruct (Ha _ Hr) as [Rr Or].
    split; [exact Rm|]. split; [exact Rr|].
    rewrite (config_view_Config c h2 Om Or), Hview, Rm, Rr. reflexivity. }
  split; [reflexivity|].
  split; [exact Hview|].
  split; [exists lm, lr; repeat split; assumption|].
  split; [exact Hframe|].
  split; [unfold hm; rewrite !slice_read_insert_ne by assumption; reflexivity|].
  split; [unfold hm; rewrite !slice_read_insert_ne by assumption; reflexivity|].
  split; [exact Hmut|].
  intros i v h2 [Hset | Hset]; apply Hmut; intros l H1 H2;
    apply (slice_set_frame _ _ _ _ _ Hset); simpl; assumption.
Qed.

End Snapshot.

(** * Further properties of the code *)

Section Construction.
Context {T : GoTypes} {X : Externals}.

Lemma set_filters_same (c : app) : set_filters (filters c ++ []) c = c.
Proof. destruct c. unfold set_filters. simpl. rewrite app_nil_r. reflexivity. Qed.

Lemma set_filters_twice (c : app) (fs gs : list (option FilterFn)) :
  set_filters (filters (set_filters (filters c ++ fs) c) ++ gs)
              (set_filters (filters c ++ fs) c)
  = set_filters (filters c ++ fs ++ gs) c.
Proof. unfold set_filters. simpl. rewrite <- app_assoc. reflexivity. Qed.

Lemma run_regcall_effect (rc : regcall) (c : app) :
  chan_ready (ready c) = false ->
  run_regcall rc c
  = Ok (set_filters (filters c ++ call_filter rc) c, call_event (resolver c) rc).
Proof.
  intros H. destruct rc as [r|r|[x|]|ws]; simpl;
    unfold OnPreload, OnPostload, AddFilter, RegisterWS; rewrite H;
    rewrite ?set_filters_same; reflexivity.
Qed.

Lemma plugin_Start_effect (calls : list regcall) :
  forall c, chan_ready (ready c) = false ->
  plugin_Start calls c
  = Ok (set_filters (filters c ++ flat_map call_filter calls) c,
        flat_map (call_event (resolver c)) calls).
Proof.
  induction calls as [|rc calls IH]; intros c H; simpl.
  - rewrite set_filters_same. reflexivity.
  - rewrite (run_regcall_effect rc c H). simpl.
    rewrite IH by exact H. simpl.
    unfold set_filters. simpl. rewrite <- app_assoc. reflexivity.
Qed.

Lemma call_events_read (rs : option Resolver) (calls : list regcall) :
  registration_events (flat_map (call_event rs) calls) = flat_map (call_event rs) calls
  /\ started (flat_map (call_event rs) calls) = []
  /\ done_watchers (flat_map (call_event rs) calls) = []
  /\ err_forwarders (flat_map (call_event rs) calls) = [].
Proof.
  unfold registration_events, started, done_watchers, err_forwarders.
  induction calls as [|rc calls (I1 & I2 & I3 & I4)]; simpl; [auto|].
  rewrite List.filter_app, !flat_map_app, I1, I2, I3, I4.
  destruct rc; simpl; auto.
Qed.

Lemma launched_nil (c : app) (es : list event) :
  started es = [] -> registration_events es = [] ->
  done_watchers es = [] -> err_forwarders es = [] ->
  launched c c es [].
Proof.
  intros H1 H2 H3 H4. unfold launched. simpl.
  rewrite set_filters_same. auto.
Qed.

Lemma launched_app (c c1 c2 : app) (e1 e2 : list event) (ps1 ps2 : list (string * Plugin)) :
  launched c c1 e1 ps1 -> launched c1 c2 e2 ps2 ->
  launched c c2 (e1 ++ e2) (ps1 ++ ps2).
Proof.
  intros (A1 & A2 & A3 & A4 & A5) (B1 & B2 & B3 & B4 & B5).
  assert (Hrs : resolver c1 = resolver c) by (rewrite A1; reflexivity).
  rewrite Hrs in B3.
  unfold launched, started, registration_events, done_watchers, err_forwarders in *.
  rewrite List.filter_app, !flat_map_app, List.filter_app, !map_app.
  rewrite A2, A3, A4, A5, B2, B3, B4, B5.
  split; [|auto].
  rewrite B1, A1. apply set_filters_twice.
Qed.

Lemma launchPlugin_launched (pluginName : string) (plugin : Plugin) (c : app) :
  chan_ready (ready c) = false ->
  exists c' es, launchPlugin pluginName plugin c = Ok (c', es)
    /\ launched c c' es [(pluginName, plugin)].
Proof.
  intros H. unfold launchPlugin.
  rewrite (plugin_Start_effect _ c H). simpl.
  eexists _, _. split; [reflexivity|].
  destruct (call_events_read (resolver c) (p_start plugin)) as (R1 & R2 & R3 & R4).
  unfold launched, plugin_filters, plugin_events,
    started, registration_events, done_watchers, err_forwarders in *.
  simpl. rewrite !List.filter_app, !flat_map_app, R1, R2, R3, R4, !app_nil_r.
  destruct (p_errCh plugin); simpl; rewrite ?app_nil_r; auto.
Qed.

Lemma launched_open (c c' : app) (es : list event) (ps : list (string * Plugin)) :
  launched c c' es ps -> same_but_filters c c'.
Proof. intros (-> & _). repeat split. Qed.

Lemma launch_entry_launched (pconfig : PluginConfig) (c : app) :
  chan_ready (ready c) = false ->
  exists c' es, launch_entry pconfig c = Ok (c', es)
    /\ launched c c' es (entry_plugin pconfig).
Proof.
  intros H. unfold launch_entry, entry_plugin.
  destruct (Name pconfig) as [|a n].
  - eexists _, _. split; [reflexivity|]. apply launched_nil; reflexivity.
  - destruct (plugins_New (String a n) (Settings pconfig)) as [plugin|err].
    + apply launchPlugin_launched, H.
    + eexists _, _. split; [reflexivity|]. apply launched_nil; reflexivity.
Qed.

Lemma launch_third_party_launched (ps : list PluginConfig) :
  forall c, chan_ready (ready c) = false ->
  exists c' es, launch_third_party ps c = Ok (c', es)
    /\ launched c c' es (flat_map entry_plugin ps).
Proof.
  induction ps as [|pconfig ps IH]; intros c H; simpl.
  - eexists _, _. split; [reflexivity|]. apply launched_nil; reflexivity.
  - destruct (launch_entry_launched pconfig c H) as (c1 & e1 & E1 & L1).
    rewrite E1. simpl.
    assert (H1 : chan_ready (ready c1) = false).
    { destruct (launched_open _ _ _ _ L1) as (-> & _). exact H. }
    destruct (IH c1 H1) as (c2 & e2 & E2 & L2).
    rewrite E2. simpl. eexists _, _. split; [reflexivity|].
    eapply launched_app; eauto.
Qed.

(** The supervisor [newApp] returns, and the trace of its construction. *)
Lemma newApp_result (eh : option errorHandlerFunc) (cjson version : string) :
  let cfg := records_SetConfig cjson in
  let rs := Some (resolver_New version cfg) in
  exists c es,
    newApp eh cjson version = Ok (c, es)
    /\ config c = cfg /\ resolver c = rs
    /\ ready c = MkChan 0 [] true /\ done c = make_chan 0 /\ errHandler c = eh
    /\ filters c = flat_map plugin_filters (started es)
    /\ registration_events es = flat_map (plugin_events rs) (started es)
    /\ done_watchers es = map fst (started es)
    /\ err_forwarders es
       = map fst (List.filter (fun np => p_errCh np.2) (started es)).
Proof.
  intros cfg rs. unfold newApp, initialize. simpl. fold cfg. fold rs.
  set (c0 := MkApp cfg rs [] (make_chan 0) (make_chan 0) eh).
  assert (H0 : chan_ready (ready c0) = false) by reflexivity.
  assert (Hb : exists c1 e1 ps1,
             (if HttpOn cfg
              then launchPlugin "HTTP server" (resolver_NewAPIPlugin rs) c0
              else Ok (c0, [])) = Ok (c1, e1)
             /\ launched c0 c1 e1 ps1).
  { destruct (HttpOn cfg).
    - destruct (launchPlugin_launched "HTTP server" (resolver_NewAPIPlugin rs) c0 H0)
        as (c1 & e1 & E & L). eauto.
    - exists c0, [], []. split; [reflexivity|]. apply launched_nil; reflexivity. }
  destruct Hb as (c1 & e1 & ps1 & E1 & L1). rewrite E1. simpl.
  pose proof (launched_open _ _ _ _ L1) as (R1 & D1 & C1 & _).
  assert (H1 : chan_ready (ready c1) = false) by (rewrite R1; exact H0).
  rewrite C1. simpl.
  destruct (launch_third_party_launched (default [] (Plugins cfg)) c1 H1)
    as (c2 & e2 & E2 & L2).
  rewrite E2. simpl.
  pose proof (launched_app _ _ _ _ _ _ _ L1 L2) as (F & St & Rg & Dw & Ef).
  unfold chan_close. rewrite F. simpl.
  eexists _, _. split; [reflexivity|]. simpl.
  rewrite St. repeat split; assumption.
Qed.

Lemma no_nil_plugin_filters (ps : list (string * Plugin)) :
  ~ In None (flat_map plugin_filters ps).
Proof.
  intros H. apply in_flat_map in H. destruct H as (np & _ & H).
  unfold plugin_filters in H. apply in_flat_map in H.
  destruct H as (rc & _ & H).
  destruct rc as [r|r|[x|]|ws]; simpl in H; try contradiction.
  destruct H as [H | []]. discriminate.
Qed.

(** X1.  On the supervisor that [newApp] returns, a further [initialize]
    panics, whatever its inputs, and so does each registration operation. *)
Theorem constructed_app_rejects_initialization
    (eh : option errorHandlerFunc) (cjson version : string) :
  exists c es,
    newApp eh cjson version = Ok (c, es)
    /\ (forall cjson' version',
          initialize cjson' version' c = Panic "app already initialized")
    /\ (forall r f ws,
          OnPreload r c = Panic "cannot OnPreload after initialization has completed"
          /\ OnPostload r c = Panic "cannot OnPostload after initialization has completed"
          /\ AddFilter f c = Panic "cannot AddFilter after initialization has completed"
          /\ RegisterWS ws c = Panic "cannot RegisterWS after initialization has completed").
Proof.
  destruct (newApp_result eh cjson version) as (c & es & E & _ & _ & Hr & _).
  exists c, es. split; [exact E|].
  assert (H : chan_ready (ready c) = true) by (rewrite Hr; reflexivity).
  split.
  - intros cjson' version'. unfold initialize. rewrite H. reflexivity.
  - intros r f ws. unfold OnPreload, OnPostload, AddFilter, RegisterWS.
    rewrite H. auto.
Qed.

(** X2.  [run] on the supervisor that [newApp] returns always reaches its
    loop.  By then it has launched the DNS server, when enabled, with the
    filters the plugins registered, and the Zookeeper watcher, when an
    address is configured, with the 30 s detection timeout, and nothing else;
    the reload signal is empty, the reload goroutine has not yet started its
    timer. *)
Theorem run_after_newApp
    (eh : option errorHandlerFunc) (cjson version : string) :
  let cfg := records_SetConfig cjson in
  let rs := Some (resolver_New version cfg) in
  exists c es s,
    newApp eh cjson version = Ok (c, es)
    /\ run c = Ok s
    /\ r_app s = c
    /\ r_trace s
       = (if DnsOn cfg then [EvLaunchDNS rs (flat_map plugin_filters (started es))]
          else [])
         ++ match Zk cfg with
            | EmptyString => []
            | String _ _ => [EvLaunchZK rs 30000000000%Z]
            end
    /\ r_reloadSignal s = MkChan 1 [] false
    /\ r_worker s = WStart
    /\ r_timer s = None.
Proof.
  intros cfg rs.
  destruct (newApp_result eh cjson version)
    as (c & es & E & Hc & Hrs & Hr & Hd & _ & Hf & _).
  fold cfg in Hc. fold rs in Hrs.
  exists c, es.
  unfold run, launchServer, beginLeaderWatch.
  rewrite Hr, Hd, Hc, Hrs, Hf. simpl.
  destruct (DnsOn cfg), (Zk cfg); simpl;
    try destruct (resolver_LaunchZK _ _);
    eexists; (split; [exact E|]); (split; [reflexivity|]);
    simpl; repeat split.
Qed.

(** X3.  The filter sequence of the constructed supervisor is the
    concatenation, in the order the plugins were started, of the non-nil
    filters each plugin added while starting; it holds no nil entry. *)
Theorem filters_follow_plugin_order
    (eh : option errorHandlerFunc) (cjson version : string) :
  exists c es,
    newApp eh cjson version = Ok (c, es)
    /\ filters c = flat_map plugin_filters (started es)
    /\ ~ In None (filters c).
Proof.
  destruct (newApp_result eh cjson version)
    as (c & es & E & _ & _ & _ & _ & _ & Hf & _).
  exists c, es. split; [exact E|]. split; [exact Hf|].
  rewrite Hf. apply no_nil_plugin_filters.
Qed.

(** X4.  Every hook and web-service registration made during construction
    comes from a started plugin, in the order plugins start and calls are
    issued, and every hook is registered on the resolver that [initialize]
    has just created, never on a nil resolver. *)
Theorem registrations_reach_new_resolver
    (eh : option errorHandlerFunc) (cjson version : string) :
  let rs := Some (resolver_New version (records_SetConfig cjson)) in
  exists c es,
    newApp eh cjson version = Ok (c, es)
    /\ resolver c = rs
    /\ registration_events es = flat_map (plugin_events rs) (started es)
    /\ (forall rs' r, In (EvResolverOnPreload rs' r) es
                      \/ In (EvResolverOnPostload rs' r) es -> rs' = rs).
Proof.
  intros rs.
  destruct (newApp_result eh cjson version)
    as (c & es & E & _ & Hrs & _ & _ & _ & _ & Hreg & _).
  fold rs in Hrs, Hreg.
  exists c, es. split; [exact E|]. split; [exact Hrs|]. split; [exact Hreg|].
  intros rs' r Hin.
  assert (Hin' : In (EvResolverOnPreload rs' r) (registration_events es)
                 \/ In (EvResolverOnPostload rs' r) (registration_events es)).
  { unfold registration_events.
    destruct Hin as [H | H]; [left | right]; apply filter_In; auto. }
  rewrite Hreg in Hin'.
  assert (Hev : forall e, In e (flat_map (plugin_events rs) (started es)) ->
            match e with
            | EvResolverOnPreload x _ | EvResolverOnPostload x _ => x = rs
            | _ => True
            end).
  { intros e He. apply in_flat_map in He. destruct He as (np & _ & He).
    unfold plugin_events in He. apply in_flat_map in He.
    destruct He as (rc & _ & He).
    destruct rc; simpl in He; try contradiction;
      destruct He as [<- | []]; simpl; auto. }
  destruct Hin' as [H | H]; apply Hev in H; exact H.
Qed.

(** X5.  Construction spawns one completion watcher for each started plugin,
    in start order, and one error forwarder for exactly those started
    plugins whose [Start] returned a non-nil error channel. *)
Theorem one_watcher_per_plugin
    (eh : option errorHandlerFunc) (cjson version : string) :
  exists c es,
    newApp eh cjson version = Ok (c, es)
    /\ done_watchers es = map fst (started es)
    /\ err_forwarders es
       = map fst (List.filter (fun np => p_errCh np.2) (started es)).
Proof.
  destruct (newApp_result eh cjson version)
    as (c & es & E & _ & _ & _ & _ & _ & _ & _ & Hd & He).
  exists c, es. auto.
Qed.

Lemma run_regcall_config (rc : regcall) (c c' : app) (es : list event) :
  run_regcall rc c = Ok (c', es) -> same_but_filters c c'.
Proof.
  destruct rc as [r|r|f|ws]; simpl;
    unfold OnPreload, OnPostload, AddFilter, RegisterWS;
    destruct (chan_ready (ready c)); try discriminate;
    try destruct f; intros H; inversion H; subst; repeat split.
Qed.

Lemma plugin_Start_config (calls : list regcall) :
  forall c c' es, plugin_Start calls c = Ok (c', es) -> same_but_filters c c'.
Proof.
  induction calls as [|rc calls IH]; intros c c' es H; simpl in H.
  - inversion H; subst. repeat split.
  - unfold mbind, outcome_bind in H.
    destruct (run_regcall rc c) as [[c1 e1]| |] eqn:E1; try discriminate.
    destruct (plugin_Start calls c1) as [[c2 e2]| |] eqn:E2; try discriminate.
    inversion H; subst.
    eapply same_but_filters_trans;
      [eapply run_regcall_config | eapply IH]; eauto.
Qed.

(** X6.  No sequence of registration calls changes what [Config] returns:
    whenever the calls return, the configuration, the gate channels and the
    resolver of the supervisor are as before, and [Config] yields the same
    snapshot and heap. *)
Theorem registration_leaves_config
    (calls : list regcall) (c c' : app) (es : list event) (h : heap) :
  plugin_Start calls c = Ok (c', es) ->
  config c' = config c /\ ready c' = ready c /\ done c' = done c
  /\ resolver c' = resolver c
  /\ Config c' h = Config c h.
Proof.
  intros H. destruct (plugin_Start_config _ _ _ _ H) as (Hr & Hd & Hc & Hrs & _).
  repeat split; try assumption.
  unfold Config. rewrite Hc. reflexivity.
Qed.

End Construction.

Section RunLoopMore.
Context {T : GoTypes} {X : Externals}.

Ltac inv_step H :=
  unfold mbind, outcome_bind in H;
  repeat match type of H with
         | context [match ?x with _ => _ end] =>
             destruct x eqn:?; simpl in H; try discriminate H
         | context [if ?x then _ else _] =>
             destruct x eqn:?; simpl in H; try discriminate H
         end.

(** *** The DNS error channel *)

Lemma step_dns_off (l : label) (s s' : run_state) :
  step l s = Ok s' ->
  r_dnsErr s = None ->
  r_dnsErr s' = None
  /\ List.filter is_launch_dns (r_trace s') = List.filter is_launch_dns (r_trace s)
  /\ handler_calls "DNS server" (r_trace s') = handler_calls "DNS server" (r_trace s).
Proof.
  intros H Hd. unfold handler_calls.
  destruct l as [k| | |a]; simpl in H.
  - destruct k; unfold run_select in H; rewrite ?Hd in H; try discriminate H;
      inv_step H; inversion H; subst; simpl;
      rewrite ?List.filter_app, ?flat_map_app; simpl; rewrite ?app_nil_r; auto.
  - unfold worker_step in H; inv_step H; inversion H; subst; simpl;
      rewrite ?List.filter_app, ?flat_map_app; simpl; rewrite ?app_nil_r; auto.
  - unfold timer_fire in H; inv_step H; inversion H; subst; simpl; auto.
  - destruct a; unfold env_step in H; cbv zeta in H; rewrite ?Hd in H;
      try discriminate H; inv_step H; inversion H; subst; simpl; auto.
Qed.

Lemma exec_dns_off (ls : list label) :
  forall s s', exec ls s = Ok s' -> r_dnsErr s = None ->
  r_dnsErr s' = None
  /\ List.filter is_launch_dns (r_trace s') = List.filter is_launch_dns (r_trace s)
  /\ handler_calls "DNS server" (r_trace s') = handler_calls "DNS server" (r_trace s).
Proof.
  induction ls as [|l ls IH]; intros s s' H Hd; simpl in H.
  - inversion H; subst. auto.
  - unfold mbind, outcome_bind in H.
    destruct (step l s) as [s1| |] eqn:E; try discriminate.
    destruct (step_dns_off _ _ _ E Hd) as (D1 & L1 & C1).
    destruct (IH _ _ H D1) as (D2 & L2 & C2).
    split; [exact D2|]. split; congruence.
Qed.

Lemma run_dns_off (c : app) (s : run_state) :
  DnsOn (config c) = false -> run c = Ok s ->
  r_dnsErr s = None
  /\ List.filter is_launch_dns (r_trace s) = []
  /\ handler_calls "DNS server" (r_trace s) = [].
Proof.
  unfold run, launchServer, beginLeaderWatch. intros Hd H. rewrite Hd in H.
  destruct (chan_ready (ready c)); [|discriminate].
  destruct (chan_ready (done c)); [discriminate|].
  destruct (Zk (config c)); try destruct (resolver_LaunchZK _ _); simpl in H;
    inversion H; subst; auto.
Qed.

(** X7.  With the DNS server disabled, [run] never launches it, the DNS
    case of the select is never ready, nothing can be sent to it, and the
    error handler is never called under the tag "DNS server". *)
Theorem dns_disabled_stays_silent (c : app) (s : run_state) :
  DnsOn (config c) = false -> reachable c s ->
  r_dnsErr s = None
  /\ run_select CaseDnsErr s = Block
  /\ (forall e, env_step (EnvDnsErr e) s = Block)
  /\ List.filter is_launch_dns (r_trace s) = []
  /\ handler_calls "DNS server" (r_trace s) = [].
Proof.
  intros Hd (s0 & ls & Hrun & Hexec).
  destruct (run_dns_off _ _ Hd Hrun) as (D0 & L0 & C0).
  destruct (exec_dns_off _ _ _ Hexec D0) as (D & L & C).
  split; [exact D|].
  split; [unfold run_select; rewrite D; reflexivity|].
  split; [intros e; unfold env_step; rewrite D; reflexivity|].
  split; congruence.
Qed.

Lemma handler_calls_app (tag : string) (tr es : list event) :
  handler_calls tag (tr ++ es) = handler_calls tag tr ++ handler_calls tag es.
Proof. unfold handler_calls. apply flat_map_app. Qed.

Lemma handler_calls_map (eh : option errorHandlerFunc) (tag : string)
    (errs : list (option GoError)) :
  handler_calls tag (map (EvErrHandler eh tag) errs) = errs.
Proof.
  unfold handler_calls. induction errs as [|e errs IH]; simpl; [reflexivity|].
  rewrite String.eqb_refl. simpl. rewrite IH. reflexivity.
Qed.

Lemma dns_errors_drained (errs : list (option GoError)) :
  forall (s : run_state) (cap : nat) (b : bool),
  r_dnsErr s = Some (MkChan cap errs b) ->
  exec (repeat (LSelect CaseDnsErr) (length errs)) s
  = Ok (MkRun (r_app s) (r_newLeader s) (Some (MkChan cap [] b)) (r_zkErr s)
              (r_reloadSignal s) (r_worker s) (r_timer s)
              (r_trace s
               ++ map (EvErrHandler (errHandler (r_app s)) "DNS server") errs)).
Proof.
  induction errs as [|e errs IH]; intros s cap b Hz.
  - destruct s; simpl in *; subst. rewrite app_nil_r. reflexivity.
  - change (exec (repeat (LSelect CaseDnsErr) (length (e :: errs))) s)
      with (s1 ← run_select CaseDnsErr s;
            exec (repeat (LSelect CaseDnsErr) (length errs)) s1).
    unfold run_select. rewrite Hz. simpl.
    erewrite IH by reflexivity. simpl.
    rewrite <- app_assoc. reflexivity.
Qed.

(** X8.  The errors queued on the DNS error channel reach the error
    handler one per iteration of the loop, in the order they were sent, each
    under the tag "DNS server"; the loop then goes on with the channel
    drained and everything else as it was. *)
Theorem dns_errors_forwarded_in_order
    (s : run_state) (cap : nat) (errs : list (option GoError)) (b : bool) :
  r_dnsErr s = Some (MkChan cap errs b) ->
  exists s',
    exec (repeat (LSelect CaseDnsErr) (length errs)) s = Ok s'
    /\ handler_calls "DNS server" (r_trace s')
       = handler_calls "DNS server" (r_trace s) ++ errs
    /\ handler_calls "ZK watcher" (r_trace s') = handler_calls "ZK watcher" (r_trace s)
    /\ r_dnsErr s' = Some (MkChan cap [] b)
    /\ r_app s' = r_app s /\ r_newLeader s' = r_newLeader s
    /\ r_zkErr s' = r_zkErr s /\ r_reloadSignal s' = r_reloadSignal s
    /\ r_worker s' = r_worker s /\ r_timer s' = r_timer s.
Proof.
  intros H. eexists. split; [apply dns_errors_drained, H|]. simpl.
  rewrite !handler_calls_app, handler_calls_map.
  split; [reflexivity|]. split; [|repeat split].
  assert (E : forall l : list (option GoError),
            handler_calls "ZK watcher"
              (map (EvErrHandler (errHandler (r_app s)) "DNS server") l) = []).
  { induction l as [|e l IH]; [reflexivity|]. simpl. exact IH. }
  rewrite E, app_nil_r. reflexivity.
Qed.

(** X9.  Once an error channel is closed and drained, its case of the
    select is ready on every iteration and each iteration calls the error
    handler with a nil error: [n] iterations give [n] such calls. *)
Theorem closed_error_channel_yields_nil
    (s : run_state) (cap n : nat) :
  (r_dnsErr s = Some (MkChan cap [] true) ->
   exec (repeat (LSelect CaseDnsErr) n) s
   = Ok (MkRun (r_app s) (r_newLeader s) (r_dnsErr s) (r_zkErr s)
               (r_reloadSignal s) (r_worker s) (r_timer s)
               (r_trace s
                ++ repeat (EvErrHandler (errHandler (r_app s)) "DNS server" None) n)))
  /\
  (r_zkErr s = Some (MkChan cap [] true) ->
   exec (repeat (LSelect CaseZkErr) n) s
   = Ok (MkRun (r_app s) (r_newLeader s) (r_dnsErr s) (r_zkErr s)
               (r_reloadSignal s) (r_worker s) (r_timer s)
               (r_trace s
                ++ repeat (EvErrHandler (errHandler (r_app s)) "ZK watcher" None) n))).
Proof.
  split; intros H; revert s H; induction n as [|n IH]; intros s H.
  - destruct s; simpl. rewrite app_nil_r. reflexivity.
  - change (exec (repeat (LSelect CaseDnsErr) (S n)) s)
      with (s1 ← run_select CaseDnsErr s; exec (repeat (LSelect CaseDnsErr) n) s1).
    unfold run_select. rewrite H. simpl.
    erewrite IH by reflexivity. simpl.
    rewrite <- app_assoc. reflexivity.
  - destruct s; simpl. rewrite app_nil_r. reflexivity.
  - change (exec (repeat (LSelect CaseZkErr) (S n)) s)
      with (s1 ← run_select CaseZkErr s; exec (repeat (LSelect CaseZkErr) n) s1).
    unfold run_select. rewrite H. simpl.
    erewrite IH by reflexivity. simpl.
    rewrite <- app_assoc. reflexivity.
Qed.

(** *** The leader watcher *)

Lemma run_launch_zk (c : app) (s : run_state) :
  run c = Ok s ->
  List.filter is_launch_zk (r_trace s)
  = match Zk (config c) with
    | EmptyString => []
    | String _ _ => [EvLaunchZK (resolver c) 30000000000%Z]
    end.
Proof.
  unfold run, launchServer, beginLeaderWatch. intros H.
  destruct (chan_ready (ready c)); [|discriminate].
  destruct (chan_ready (done c)); [discriminate|].
  destruct (DnsOn (config c)), (Zk (config c));
    try destruct (resolver_LaunchZK _ _); simpl in H;
    inversion H; subst; reflexivity.
Qed.

(** X10.  In every state [run] reaches, the Zookeeper watcher has been
    launched exactly once, with a detection timeout of 30 s, when an address
    is configured, and never otherwise. *)
Theorem zk_watcher_launched_once (c : app) (s : run_state) :
  reachable c s ->
  List.filter is_launch_zk (r_trace s)
  = match Zk (config c) with
    | EmptyString => []
    | String _ _ => [EvLaunchZK (resolver c) 30000000000%Z]
    end.
Proof.
  intros (s0 & ls & Hrun & Hexec).
  rewrite (exec_no_launch_zk _ _ _ Hexec). apply run_launch_zk, Hrun.
Qed.

Lemma leader_events_drained (us : list unit) :
  forall (s : run_state) (cap : nat) (b : bool),
  sig_ok (r_reloadSignal s) ->
  r_newLeader s = Some (MkChan cap us b) ->
  exec (repeat (LSelect CaseNewLeader) (length us)) s
  = Ok (MkRun (r_app s) (Some (MkChan cap [] b)) (r_dnsErr s) (r_zkErr s)
              (match us with
               | [] => r_reloadSignal s
               | _ :: _ => MkChan 1 [tt] false
               end)
              (r_worker s) (r_timer s) (r_trace s)).
Proof.
  induction us as [|u us IH]; intros s cap b Hsig Hnl.
  - destruct s; simpl in *; subst. reflexivity.
  - change (exec (repeat (LSelect CaseNewLeader) (length (u :: us))) s)
      with (s1 ← run_select CaseNewLeader s;
            exec (repeat (LSelect CaseNewLeader) (length us)) s1).
    unfold run_select. rewrite Hnl. simpl.
    rewrite (tryReload_sig_ok _ Hsig). simpl.
    erewrite IH; [|right; reflexivity|reflexivity]. simpl.
    destruct us; reflexivity.
Qed.

(** X11.  A burst of leadership events is coalesced: when the select has
    taken all the events queued on the leader channel, however many, one
    reload request is pending and nothing else has changed. *)
Theorem leader_burst_coalesces
    (c : app) (s : run_state) (cap : nat) (u : unit) (us : list unit) (b : bool) :
  reachable c s ->
  r_newLeader s = Some (MkChan cap (u :: us) b) ->
  exec (repeat (LSelect CaseNewLeader) (S (length us))) s
  = Ok (MkRun (r_app s) (Some (MkChan cap [] b)) (r_dnsErr s) (r_zkErr s)
              (MkChan 1 [tt] false) (r_worker s) (r_timer s) (r_trace s)).
Proof.
  intros Hreach Hnl.
  destruct (reachable_reload_inv _ _ Hreach) as (Hsig & _).
  apply (leader_events_drained (u :: us) s cap b Hsig Hnl).
Qed.

(** *** The reload timer *)

Lemma run_timer_inv (c : app) (s : run_state) : run c = Ok s -> timer_inv s.
Proof.
  unfold run, launchServer, beginLeaderWatch. intros H.
  destruct (chan_ready (ready c)); [|discriminate].
  destruct (chan_ready (done c)); [discriminate|].
  destruct (DnsOn (config c)), (Zk (config c));
    try destruct (resolver_LaunchZK _ _); simpl in H;
    inversion H; subst; (split; [left; reflexivity | left; reflexivity]).
Qed.

Lemma step_timer_inv (l : label) (s s' : run_state) :
  step l s = Ok s' -> reload_inv s -> timer_inv s -> timer_inv s'.
Proof.
  intros H (Hsig & Hpc & _) (Hval & Hnone).
  destruct l as [k| | |a]; simpl in H.
  - destruct k; unfold run_select in H.
    + rewrite (tryReload_sig_ok _ Hsig) in H. inv_step H.
      inversion H; subst; clear H. split; simpl; auto.
    + inv_step H. inversion H; subst; clear H. split; simpl; auto.
    + inv_step H. inversion H; subst; clear H. split; simpl; auto.
  - unfold worker_step in H. destruct (r_worker s) eqn:Ew.
    + inversion H; subst; clear H. split; simpl; [auto | discriminate].
    + destruct Hsig as [Es | Es]; rewrite Es in H; simpl in H; [discriminate|].
      inversion H; subst; clear H. split; simpl; auto.
    + inversion H; subst; clear H. split; simpl; [auto | discriminate].
    + discriminate.
  - unfold timer_fire in H. rewrite (tryReload_sig_ok _ Hsig) in H.
    inv_step H. inversion H; subst; clear H. split; simpl; auto.
  - destruct a; unfold env_step in H; cbv zeta in H; inv_step H;
      inversion H; subst; clear H; (split; simpl; auto).
Qed.

Lemma exec_timer_inv (ls : list label) :
  forall s s', exec ls s = Ok s' -> reload_inv s -> timer_inv s -> timer_inv s'.
Proof.
  induction ls as [|l ls IH]; intros s s' H Hinv Ht; simpl in H.
  - inversion H; subst; assumption.
  - unfold mbind, outcome_bind in H.
    destruct (step l s) as [s1| |] eqn:E; try discriminate.
    eapply IH; eauto using step_reload_inv, step_timer_inv.
Qed.

Lemma quiescent_timer (c : app) (s : run_state) :
  reachable c s -> quiescent s -> r_timer s = Some (reloadTimeout c).
Proof.
  intros Hreach (Hw & Hb).
  pose proof (reachable_app _ _ Hreach) as Happ.
  destruct Hreach as (s0 & ls & Hrun & Hexec).
  pose proof (exec_timer_inv _ _ _ Hexec (run_reload_inv _ _ Hrun)
                (run_timer_inv _ _ Hrun)) as (Hval & Hnone).
  destruct Hval as [Hn | Hs]; [|rewrite Hs, Happ; reflexivity].
  destruct (Hnone Hn) as [H | [H | H]]; congruence.
Qed.

(** C9.  In every state [run] reaches, the reload goroutine behaves as
    follows.  Its next step is fixed by where it stands: not yet started, it
    arms the timer with [reloadTimeout]; waiting, it does nothing while the
    signal is empty and otherwise removes the one queued request and calls
    [Reload] once; inside [Reload], its step is the return of that call,
    followed by [PrintCurLog] and the reset of the timer to [reloadTimeout],
    and only then is it waiting again.  From every such state the steps of
    [service_schedule] can be taken, and they end with one full service:
    [Reload] called, returned, [PrintCurLog], timer reset, the goroutine
    waiting with nothing queued and the timer armed.  The number of
    executions of [Reload] begun and not finished is always 0 or 1, and
    [reloadTimeout] is the configured number of seconds, in nanoseconds,
    for every value up to 9223372036. *)
Theorem reload_worker_one_at_a_time (c : app) (s : run_state) :
  reachable c s ->
  let d := reloadTimeout c in
  let served := [EvResolverReload (resolver c); EvResolverReloadReturn;
                 EvPrintCurLog; EvTimerReset d] in
  reloads_begun (r_trace s) = reloads_done (r_trace s) + in_flight (r_worker s)
  /\ in_flight (r_worker s) <= 1
  /\ r_worker s <> WExit
  /\ worker_step s
     = match r_worker s with
       | WStart =>
           Ok (MkRun (r_app s) (r_newLeader s) (r_dnsErr s) (r_zkErr s)
                     (r_reloadSignal s) WAwait (Some d)
                     (r_trace s ++ [EvTimerAfterFunc d]))
       | WAwait =>
           match ch_buf (r_reloadSignal s) with
           | [] => Block
           | _ :: _ =>
               Ok (MkRun (r_app s) (r_newLeader s) (r_dnsErr s) (r_zkErr s)
                         (MkChan 1 [] false) WReloading (r_timer s)
                         (r_trace s ++ [EvResolverReload (resolver c)]))
           end
       | WReloading =>
           Ok (MkRun (r_app s) (r_newLeader s) (r_dnsErr s) (r_zkErr s)
                     (r_reloadSignal s) WAwait (Some d)
                     (r_trace s ++ [EvResolverReloadReturn; EvPrintCurLog;
                                    EvTimerReset d]))
       | WExit => Block
       end
  /\ (exists s1,
        exec (service_schedule s) s = Ok s1
        /\ r_trace s1 = r_trace s ++ service_prefix s ++ served
        /\ r_worker s1 = WAwait
        /\ r_reloadSignal s1 = MkChan 1 [] false
        /\ r_timer s1 = Some d
        /\ reloads_done (r_trace s1)
           = reloads_done (r_trace s) + 1 + in_flight (r_worker s)
        /\ reloads_begun (r_trace s1) = reloads_done (r_trace s1))
  /\ ((-9223372036 <= RefreshSeconds (config c) <= 9223372036)%Z ->
      d = (1000000000 * RefreshSeconds (config c))%Z).
Proof.
  intros Hreach d served.
  destruct (reachable_reload_inv _ _ Hreach) as (Hsig & Hpc & Hcnt).
  pose proof (reachable_app _ _ Hreach) as Happ.
  assert (Hq : quiescent s -> r_timer s = Some d) by apply quiescent_timer, Hreach.
  split; [exact Hcnt|].
  split; [destruct (r_worker s); simpl; lia|].
  split; [exact Hpc|].
  split; [|split].
  - unfold worker_step. rewrite Happ. fold d.
    destruct (r_worker s); try reflexivity.
    destruct Hsig as [-> | ->]; reflexivity.
  - unfold quiescent in Hq. unfold service_schedule, service_prefix.
    unfold reloads_done, reloads_begun in *.
    destruct s as [a nl de ze sig pc tm tr]. simpl in *. subst a. fold d.
    destruct pc; try contradiction;
      destruct Hsig as [-> | ->]; simpl in *;
      try (rewrite (Hq (conj eq_refl eq_refl)));
      (eexists; split; [reflexivity|]); simpl;
      rewrite <- ?app_assoc; simpl;
      rewrite ?List.filter_app, ?length_app; simpl;
      repeat split; lia.
  - intros H. unfold d, reloadTimeout, wrap64, time_Second.
    assert (E : forall x y : Z, (0 <= x < y)%Z -> (x mod y = x)%Z)
      by (intros; apply Z.mod_small; assumption).
    rewrite E; lia.
Qed.

(** X12.  The fallback timer cannot be lost: in every state [run] reaches
    the timer is either not armed or armed with the configured reload
    timeout, and whenever the reload goroutine is waiting with nothing queued
    it is armed. *)
Theorem quiescent_reloader_has_timer (c : app) (s : run_state) :
  reachable c s ->
  (r_timer s = None \/ r_timer s = Some (reloadTimeout c))
  /\ (quiescent s -> r_timer s = Some (reloadTimeout c)).
Proof.
  intros Hreach. split; [|apply quiescent_timer, Hreach].
  pose proof (reachable_app _ _ Hreach) as Happ.
  destruct Hreach as (s0 & ls & Hrun & Hexec).
  pose proof (exec_timer_inv _ _ _ Hexec (run_reload_inv _ _ Hrun)
                (run_timer_inv _ _ Hrun)) as (Hval & _).
  rewrite <- Happ. exact Hval.
Qed.

(** X13.  From a waiting reload goroutine with nothing queued, the expiry of
    the timer leads to exactly one execution of [Reload], after which the
    goroutine is waiting again with nothing queued and the timer armed
    anew: the periodic reload keeps itself going. *)
Theorem timer_driven_reload_cycle (c : app) (s : run_state) :
  reachable c s -> quiescent s ->
  exists s',
    exec [LTimer; LWorker; LWorker] s = Ok s'
    /\ r_trace s'
       = r_trace s ++ [EvResolverReload (resolver c); EvResolverReloadReturn;
                       EvPrintCurLog; EvTimerReset (reloadTimeout c)]
    /\ quiescent s'
    /\ r_timer s' = Some (reloadTimeout c)
    /\ reloads_done (r_trace s') = reloads_done (r_trace s) + 1
    /\ reachable c s'.
Proof.
  intros Hreach Hq.
  pose proof (quiescent_timer _ _ Hreach Hq) as Ht.
  pose proof (reachable_app _ _ Hreach) as Happ.
  destruct (reachable_reload_inv _ _ Hreach) as (Hsig & _).
  destruct Hq as (Hw & Hb).
  assert (Hs : r_reloadSignal s = MkChan 1 [] false).
  { destruct Hsig as [E | E]; [exact E | rewrite E in Hb; discriminate]. }
  assert (E : exec [LTimer; LWorker; LWorker] s
              = Ok (MkRun (r_app s) (r_newLeader s) (r_dnsErr s) (r_zkErr s)
                          (MkChan 1 [] false) WAwait (Some (reloadTimeout c))
                          (r_trace s ++ [EvResolverReload (resolver c);
                                         EvResolverReloadReturn; EvPrintCurLog;
                                         EvTimerReset (reloadTimeout c)]))).
  { simpl. unfold timer_fire. rewrite Ht, Hs. simpl.
    unfold worker_step at 1. simpl. rewrite Hw. simpl.
    unfold worker_step. simpl. rewrite Happ, <- app_assoc. reflexivity. }
  eexists. split; [exact E|]. simpl.
  split; [reflexivity|]. split; [split; reflexivity|]. split; [reflexivity|].
  split.
  - rewrite reloads_done_app. reflexivity.
  - destruct Hreach as (s0 & ls & Hrun & Hexec).
    exists s0, (ls ++ [LTimer; LWorker; LWorker]). split; [exact Hrun|].
    clear - Hexec E. revert s0 Hexec.
    induction ls as [|l ls IH]; intros s0 Hexec.
    + simpl in Hexec. inversion Hexec; subst. exact E.
    + simpl in Hexec |- *. unfold mbind, outcome_bind in *.
      destruct (step l s0) as [s1| |]; try discriminate. apply IH, Hexec.
Qed.

(** *** Completion *)

(** X15.  While [run] is in its loop the channel returned by [Done] is not
    ready, so its clients wait; the deferred close that runs when [run] is
    left makes it ready for good; a second such close, as two overlapping
    calls of [run] would attempt, panics. *)
Theorem Done_signals_completion
    (c : app) (s0 : run_state) (ls : list label) (s : run_state) :
  run c = Ok s0 -> exec ls s0 = Ok s ->
  chan_ready (Done (r_app s)) = false
  /\ chan_recv tt (Done (r_app s)) = Block
  /\ exists c',
       run_exit (r_app s) = Ok c'
       /\ chan_recv tt (Done c') = Ok (tt, Done c')
       /\ ready c' = ready c /\ config c' = config c /\ filters c' = filters c
       /\ run_exit c' = Panic "close of closed channel".
Proof.
  intros Hrun Hexec.
  rewrite (exec_app _ _ _ Hexec), (run_app _ _ Hrun).
  destruct (run_gate_open _ _ Hrun) as [_ Hd].
  unfold Done. split; [exact Hd|].
  unfold chan_ready in Hd. unfold chan_recv, run_exit, chan_close, set_done.
  destruct (done c) as [cap buf cl]. simpl in *.
  destruct buf; [|discriminate]. subst cl.
  split; [reflexivity|]. simpl.
  eexists. split; [reflexivity|]. simpl.
  repeat split.
Qed.

(** *** Start-up *)

Lemma run_static_shape (c : app) (s0 : run_state) :
  Zk (config c) = EmptyString -> run c = Ok s0 ->
  s0 = MkRun c (Some (MkChan 1 [tt] false)) (r_dnsErr s0) None
             (MkChan 1 [] false) WStart None (r_trace s0)
  /\ reloads_done (r_trace s0) = 0.
Proof.
  unfold run, launchServer, beginLeaderWatch. intros Hz H. rewrite Hz in H.
  destruct (chan_ready (ready c)); [|discriminate].
  destruct (chan_ready (done c)); [discriminate|].
  destruct (DnsOn (config c)); simpl in H; inversion H; subst; clear H;
    split; reflexivity.
Qed.

(** X17.  Without a Zookeeper address the first reload is not lost to the
    race between the loop of [run] and the start of the reload goroutine:
    whether the initial leadership event is taken before the goroutine has
    started or after, exactly one [Reload] is executed, and the goroutine ends
    up waiting with the timer armed. *)
Theorem startup_reload_not_lost (c : app) (s0 : run_state) (ls : list label) :
  Zk (config c) = EmptyString -> run c = Ok s0 ->
  ls = [LSelect CaseNewLeader; LWorker; LWorker; LWorker]
  \/ ls = [LWorker; LSelect CaseNewLeader; LWorker; LWorker] ->
  exists s,
    exec ls s0 = Ok s
    /\ reloads_done (r_trace s) = 1
    /\ reloads_begun (r_trace s) = 1
    /\ quiescent s
    /\ r_timer s = Some (reloadTimeout c)
    /\ r_newLeader s = Some (MkChan 1 [] false).
Proof.
  intros Hz Hrun Hls.
  destruct (run_static_shape _ _ Hz Hrun) as [Hs0 Hcnt].
  pose proof (run_reload_inv _ _ Hrun) as (_ & _ & Hb).
  rewrite Hs0 in Hb. simpl in Hb. rewrite Hcnt in Hb.
  rewrite Hs0. unfold reloads_done, reloads_begun in *.
  destruct Hls as [-> | ->]; (eexists; split; [reflexivity|]); simpl;
    rewrite !List.filter_app, !length_app; simpl;
    rewrite Hcnt, Hb; repeat split.
Qed.

End RunLoopMore.

Section SnapshotMore.
Context {T : GoTypes}.

(** [Config] leaves every well-formed slice of the old heap well formed and
    reading the same. *)
Lemma Config_frame (c : app) (h : heap) (s : slice) :
  slice_ok h (Masters (config c)) = true ->
  slice_ok h (Resolvers (config c)) = true ->
  slice_ok h s = true ->
  slice_ok (Config c h).2 s = true /\ slice_read (Config c h).2 s = slice_read h s.
Proof.
  intros Hm Hr Hs.
  rewrite (Config_closed_form c h Hm Hr). cbv zeta. simpl.
  set (lm := fresh (dom h)).
  set (hm := <[lm := slice_read h (Masters (config c))]> h).
  set (lr := fresh (dom hm)).
  assert (Hlm : h !! lm = None) by apply fresh_unallocated.
  assert (Hlr : hm !! lr = None) by apply fresh_unallocated.
  assert (P1 : s_ptr s <> Some lm) by (eapply slice_ok_not_fresh; eauto).
  assert (Hs' : slice_ok hm s = true).
  { unfold hm. rewrite slice_ok_insert_ne by exact P1. exact Hs. }
  assert (P2 : s_ptr s <> Some lr) by (eapply slice_ok_not_fresh; eauto).
  rewrite slice_ok_insert_ne, slice_read_insert_ne by exact P2.
  unfold hm. rewrite slice_ok_insert_ne, slice_read_insert_ne by exact P1.
  auto.
Qed.

(** The two slices of a snapshot are well formed in the heap [Config]
    returns, non-nil, and as long as the lists they copy. *)
Lemma Config_snapshot_ok (c : app) (h : heap) :
  slice_ok h (Masters (config c)) = true ->
  slice_ok h (Resolvers (config c)) = true ->
  slice_ok (Config c h).2 (Masters (Config c h).1) = true
  /\ slice_ok (Config c h).2 (Resolvers (Config c h).1) = true
  /\ s_ptr (Masters (Config c h).1) <> None
  /\ s_ptr (Resolvers (Config c h).1) <> None
  /\ s_len (Masters (Config c h).1) = s_len (Masters (config c))
  /\ s_len (Resolvers (Config c h).1) = s_len (Resolvers (config c)).
Proof.
  intros Hm Hr.
  rewrite (Config_closed_form c h Hm Hr). cbv zeta. simpl.
  set (lm := fresh (dom h)).
  set (hm := <[lm := slice_read h (Masters (config c))]> h).
  set (lr := fresh (dom hm)).
  assert (Hne : lr <> lm).
  { intros E. pose proof (fresh_unallocated hm) as Hf. fold lr in Hf.
    rewrite E in Hf. unfold hm in Hf. rewrite lookup_insert_eq in Hf.
    discriminate. }
  unfold slice_ok. simpl.
  rewrite lookup_insert_ne by exact Hne.
  unfold hm at 1. rewrite !lookup_insert_eq.
  rewrite !slice_read_length by assumption.
  rewrite !Nat.leb_refl. repeat split; discriminate.
Qed.

(** X16.  [Config] can be called again and again: a second call shows the
    same values as the first and leaves the first snapshot reading as it
    did.  A snapshot's address slices are never nil, also when the
    supervisor's are, and have the length of the supervisor's. *)
Theorem Config_repeatable (c : app) (h : heap) :
  slice_ok h (Masters (config c)) = true ->
  slice_ok h (Resolvers (config c)) = true ->
  let snap1 := (Config c h).1 in
  let h1 := (Config c h).2 in
  let h2 := (Config c h1).2 in
  config_view (Config c h1) = config_view (Config c h)
  /\ slice_read h2 (Masters snap1) = slice_read h1 (Masters snap1)
  /\ slice_read h2 (Resolvers snap1) = slice_read h1 (Resolvers snap1)
  /\ s_ptr (Masters snap1) <> None /\ s_ptr (Resolvers snap1) <> None
  /\ s_len (Masters snap1) = s_len (Masters (config c))
  /\ s_len (Resolvers snap1) = s_len (Resolvers (config c)).
Proof.
  intros Hm Hr snap1 h1 h2.
  destruct (Config_frame c h _ Hm Hr Hm) as [Hm1 Rm1].
  destruct (Config_frame c h _ Hm Hr Hr) as [Hr1 Rr1].
  fold h1 in Hm1, Rm1, Hr1, Rr1.
  destruct (Config_snapshot_ok c h Hm Hr) as (Om & Or & Nm & Nr & Lm & Lr).
  fold snap1 h1 in Om, Or, Nm, Nr, Lm, Lr.
  destruct (Config_frame c h1 _ Hm1 Hr1 Om) as [_ Fm].
  destruct (Config_frame c h1 _ Hm1 Hr1 Or) as [_ Fr].
  fold h2 in Fm, Fr.
  split.
  { rewrite (config_view_Config c h1 Hm1 Hr1), (config_view_Config c h Hm Hr),
      Rm1, Rr1. reflexivity. }
  repeat split; assumption.
Qed.

End SnapshotMore.

(** * The theorems at work on the concrete instance *)

#[local] Existing Instance demo_types.
#[local] Existing Instance demo_ext.

Lemma demo_reachable (ls : list label) (s : run_state) :
  (s0 ← run demo_app_ready; exec ls s0) = Ok s -> reachable demo_app_ready s.
Proof.
  intros H. unfold mbind, outcome_bind in H.
  destruct (run demo_app_ready) as [s0| |] eqn:E; try discriminate.
  exists s0, ls. auto.
Qed.



Lemma run_gate_misuse_witness :
  chan_ready (ready demo_app_open) = false
  /\ run demo_app_open = Panic "cannot run, not yet initialized".
Proof.
  split; [reflexivity|].
  exact (proj1 (run_gate_misuse demo_app_open) eq_refl).
Defined.

(** C3, counterexample.  With [ready] closed and [done] open, [run] enters
    its loop; the supervisor it is running on is unchanged, and a second call
    of [run] on it enters the loop as well instead of panicking. *)
Lemma run_second_call_not_caught :
  exists s, run demo_app_ready = Ok s
    /\ r_app s = demo_app_ready
    /\ run (r_app s) = Ok s
    /\ forall msg, run (r_app s) <> Panic msg.
Proof.
  eexists. split; [reflexivity|]. split; [reflexivity|].
  split; [reflexivity|]. intros msg. discriminate.
Qed.

Lemma reload_requests_coalesce_witness :
  reachable demo_app_ready (state_after [LWorker; LTimer; LWorker])
  /\ 1 <= 3 /\ 4 <= 6
  /\ tryReload_n 3 (r_reloadSignal (state_after [LWorker; LTimer; LWorker]))
     = Ok (MkChan 1 [tt] false).
Proof.
  assert (R : reachable demo_app_ready (state_after [LWorker; LTimer; LWorker])).
  { apply (demo_reachable [LWorker; LTimer; LWorker]). reflexivity. }
  split; [exact R|]. split; [lia|]. split; [lia|].
  exact (proj1 (proj2 (proj2 (proj2
    (reload_requests_coalesce demo_app_ready _ 3 6 R
       ltac:(lia) ltac:(lia)))))).
Defined.

Lemma leader_event_requests_one_reload_witness :
  reachable demo_app_ready (state_after [LWorker])
  /\ chan_recv_opt tt (r_newLeader (state_after [LWorker]))
     = Ok (tt, Some (MkChan 1 [] false))
  /\ tryReload (r_reloadSignal (state_after [LWorker])) = Ok (MkChan 1 [tt] false).
Proof.
  assert (R : reachable demo_app_ready (state_after [LWorker])).
  { apply (demo_reachable [LWorker]). reflexivity. }
  split; [exact R|]. split; [reflexivity|].
  exact (proj1 (leader_event_requests_one_reload demo_app_ready _ tt _ R eq_refl)).
Defined.

Lemma reload_worker_one_at_a_time_witness :
  reachable demo_app_ready (state_after [LWorker; LSelect CaseNewLeader])
  /\ service_schedule (state_after [LWorker; LSelect CaseNewLeader])
     = [LWorker; LWorker]
  /\ exists s1,
       exec [LWorker; LWorker] (state_after [LWorker; LSelect CaseNewLeader]) = Ok s1
       /\ r_trace s1
          = r_trace (state_after [LWorker; LSelect CaseNewLeader])
            ++ [EvResolverReload (Some 7); EvResolverReloadReturn; EvPrintCurLog;
                EvTimerReset 60000000000%Z]
       /\ r_worker s1 = WAwait
       /\ r_timer s1 = Some 60000000000%Z.
Proof.
  assert (R : reachable demo_app_ready (state_after [LWorker; LSelect CaseNewLeader])).
  { apply (demo_reachable [LWorker; LSelect CaseNewLeader]). reflexivity. }
  split; [exact R|]. split; [reflexivity|].
  destruct (reload_worker_one_at_a_time demo_app_ready _ R)
    as (_ & _ & _ & _ & (s1 & E & Htr & Hw & _ & Ht & _) & _).
  exists s1. split; [exact E|]. split; [exact Htr|]. split; [exact Hw | exact Ht].
Defined.

Lemma static_mode_leader_fires_once_witness :
  Zk (config demo_app_ready) = EmptyString
  /\ chan_ready (ready demo_app_ready) = true
  /\ chan_ready (done demo_app_ready) = false
  /\ run demo_app_ready
     = Ok (MkRun demo_app_ready (Some (MkChan 1 [tt] false)) (Some (make_chan 0)) None
                 (MkChan 1 [] false) WStart None [EvLaunchDNS (Some 7) [Some 4]])
  /\ exec [LSelect CaseNewLeader]
          (MkRun demo_app_ready (Some (MkChan 1 [tt] false)) (Some (make_chan 0)) None
                 (MkChan 1 [] false) WStart None [EvLaunchDNS (Some 7) [Some 4]])
     = Ok (MkRun demo_app_ready (Some (MkChan 1 [] false)) (Some (make_chan 0)) None
                 (MkChan 1 [tt] false) WStart None [EvLaunchDNS (Some 7) [Some 4]])
  /\ run_select CaseNewLeader
       (MkRun demo_app_ready (Some (MkChan 1 [] false)) (Some (make_chan 0)) None
              (MkChan 1 [tt] false) WStart None [EvLaunchDNS (Some 7) [Some 4]])
     = Block.
Proof.
  pose proof (static_mode_leader_fires_once demo_app_ready eq_refl eq_refl eq_refl)
    as (_ & Hrun & Hfire & _ & Hall).
  split; [reflexivity|]. split; [reflexivity|]. split; [reflexivity|].
  split; [exact Hrun|]. split; [exact Hfire|].
  exact (proj1 (proj2 (proj2 (proj2 (proj2 (proj2
    (Hall [LSelect CaseNewLeader] _ Hfire))))) eq_refl)).
Defined.

Lemma zk_error_forwarded_witness :
  chan_recv_opt None (r_zkErr demo_zk_state)
  = Ok (Some "session expired", Some (MkChan 0 [] false))
  /\ run_select CaseZkErr demo_zk_state
     = Ok (MkRun demo_app_ready (Some (make_chan 1)) None (Some (MkChan 0 [] false))
                 launchReloader WAwait None
                 [EvErrHandler (Some 0) "ZK watcher" (Some "session expired")]).
Proof.
  split; [reflexivity|].
  exact (proj1 (zk_error_forwarded demo_zk_state _ _ eq_refl)).
Defined.

(** C7, counterexample.  The error taken from the watcher's channel reaches
    the handler under the tag "ZK watcher"; no call of the handler carries
    the tag "leader watcher". *)
Lemma zk_error_tag_counterexample :
  exists s',
    run_select CaseZkErr demo_zk_state = Ok s'
    /\ r_trace s' = [EvErrHandler (Some 0) "ZK watcher" (Some "session expired")]
    /\ forall eh err, ~ In (EvErrHandler eh "leader watcher" err) (r_trace s').
Proof.
  eexists. split; [reflexivity|]. split; [reflexivity|].
  intros eh err [H | []]. discriminate H.
Qed.

Lemma Config_snapshot_isolated_witness :
  slice_ok demo_heap (Masters (config demo_app_open)) = true
  /\ slice_ok demo_heap (Resolvers (config demo_app_open)) = true
  /\ Plugins (Config demo_app_open demo_heap).1 = None.
Proof.
  split; [reflexivity|]. split; [reflexivity|].
  exact (proj1 (Config_snapshot_isolated demo_app_open demo_heap eq_refl eq_refl)).
Defined.

(** ** Worked runs *)

(** Construction with the four-entry plugin list: the built-in plugin, then
    "alpha" and "omega"; the nameless and the unresolvable entry are logged. *)
Example newApp_demo_started :
  match newApp (Some 0) "mesos-dns.json" "v0" with
  | Ok (c, es) =>
      map fst (started es) = ["HTTP server"; "alpha"; "omega"]
      /\ logged_errors es
         = [("failed to register plugin with empty name", None);
            ("failed to create plugin: %v", Some "no such plugin")]
      /\ filters c = [Some 5]
      /\ ch_closed (ready c) = true
  | _ => False
  end.
Proof. vm_compute. repeat split. Qed.

(** Overwriting an element of a returned snapshot leaves the next snapshot
    as the first one was. *)
Example Config_demo_mutation :
  let '(snap, h1) := Config demo_app_open demo_heap in
  match slice_set (Masters snap) 0 "203.0.113.9:1" h1 with
  | Ok h2 =>
      slice_read h2 (Masters snap) = ["203.0.113.9:1"; "10.0.0.2:5050"]
      /\ slice_read h2 (Masters (config demo_app_open))
         = ["10.0.0.1:5050"; "10.0.0.2:5050"]
      /\ config_view (Config demo_app_open h2)
         = (["10.0.0.1:5050"; "10.0.0.2:5050"], ["8.8.8.8"],
            EmptyString, true, true, 60%Z, None)
  | _ => False
  end.
Proof. vm_compute. repeat split. Qed.

(** Five requests while a reload is in flight: two completed executions. *)
Example coalescing_demo :
  let s := state_after [LWorker; LSelect CaseNewLeader; LWorker] in
  r_worker s = WReloading
  /\ match tryReload_n 5 (r_reloadSignal s) with
     | Ok sig =>
         reloads_done (r_trace (worker_drain 10 (set_signal sig s)))
         = reloads_done (r_trace s) + 2
     | _ => False
     end.
Proof. vm_compute. split; reflexivity. Qed.

(** Static mode: the leader case is ready once and not after. *)
Example static_leader_demo :
  match run_select CaseNewLeader (state_after []) with
  | Ok s1 =>
      ch_buf (r_reloadSignal s1) = [tt]
      /\ run_select CaseNewLeader s1 = Block
      /\ run_select CaseZkErr s1 = Block
  | _ => False
  end.
Proof. vm_compute. repeat split. Qed.

(** ** The further properties on the concrete instance *)

Lemma zk_reachable (ls : list label) (s : run_state) :
  (s0 ← run demo_app_zk; exec ls s0) = Ok s -> reachable demo_app_zk s.
Proof.
  intros H. unfold mbind, outcome_bind in H.
  destruct (run demo_app_zk) as [s0| |] eqn:E; try discriminate.
  exists s0, ls. auto.
Qed.

Lemma registration_leaves_config_witness :
  plugin_Start [CallAddFilter (Some 5); CallOnPreload 3] demo_app_open
  = Ok (set_filters [Some 4; Some 5] demo_app_open, [EvResolverOnPreload (Some 7) 3])
  /\ Config (set_filters [Some 4; Some 5] demo_app_open) demo_heap
     = Config demo_app_open demo_heap.
Proof.
  split; [reflexivity|].
  exact (proj2 (proj2 (proj2 (proj2
    (registration_leaves_config
       [CallAddFilter (Some 5); CallOnPreload 3] demo_app_open
       (set_filters [Some 4; Some 5] demo_app_open)
       [EvResolverOnPreload (Some 7) 3] demo_heap eq_refl))))).
Defined.

Lemma dns_disabled_stays_silent_witness :
  DnsOn (config demo_app_zk) = false
  /\ reachable demo_app_zk
       (zk_state_after [LWorker; LEnv (@EnvZkErr demo_types (Some "lost")); LSelect CaseZkErr])
  /\ run_select CaseDnsErr
       (zk_state_after [LWorker; LEnv (@EnvZkErr demo_types (Some "lost")); LSelect CaseZkErr])
     = Block.
Proof.
  assert (R : reachable demo_app_zk
                (zk_state_after [LWorker; LEnv (@EnvZkErr demo_types (Some "lost"));
                                 LSelect CaseZkErr])).
  { apply (zk_reachable [LWorker; LEnv (@EnvZkErr demo_types (Some "lost")); LSelect CaseZkErr]).
    reflexivity. }
  split; [reflexivity|]. split; [exact R|].
  exact (proj1 (proj2 (dns_disabled_stays_silent demo_app_zk _ eq_refl R))).
Defined.

Lemma dns_errors_forwarded_in_order_witness :
  r_dnsErr demo_dns_state = Some (MkChan 0 [Some "socket closed"; None] false)
  /\ exists s',
       exec (repeat (LSelect CaseDnsErr) 2) demo_dns_state = Ok s'
       /\ handler_calls "DNS server" (r_trace s')
          = handler_calls "DNS server" (r_trace demo_dns_state)
            ++ [Some "socket closed"; None].
Proof.
  split; [reflexivity|].
  destruct (dns_errors_forwarded_in_order demo_dns_state 0
              [Some "socket closed"; None] false eq_refl) as (s' & E & H & _).
  exists s'. split; [exact E | exact H].
Defined.

Lemma closed_error_channel_yields_nil_witness :
  r_dnsErr demo_closed_state = Some (MkChan 0 [] true)
  /\ exec (repeat (LSelect CaseDnsErr) 3) demo_closed_state
     = Ok (MkRun demo_app_ready (Some (make_chan 1)) (Some (MkChan 0 [] true)) None
                 launchReloader WAwait None
                 (repeat (EvErrHandler (Some 0) "DNS server" None) 3)).
Proof.
  split; [reflexivity|].
  exact (proj1 (closed_error_channel_yields_nil demo_closed_state 0 3) eq_refl).
Defined.

Lemma zk_watcher_launched_once_witness :
  reachable demo_app_zk (zk_state_after [LWorker; LEnv EnvLeader])
  /\ List.filter is_launch_zk (r_trace (zk_state_after [LWorker; LEnv EnvLeader]))
     = [EvLaunchZK (Some 7) 30000000000%Z].
Proof.
  assert (R : reachable demo_app_zk (zk_state_after [LWorker; LEnv EnvLeader])).
  { apply (zk_reachable [LWorker; LEnv EnvLeader]). reflexivity. }
  split; [exact R|].
  exact (zk_watcher_launched_once demo_app_zk _ R).
Defined.

Lemma leader_burst_coalesces_witness :
  reachable demo_app_zk
    (zk_state_after [LEnv EnvLeader; LEnv EnvLeader; LEnv EnvLeader])
  /\ r_newLeader (zk_state_after [LEnv EnvLeader; LEnv EnvLeader; LEnv EnvLeader])
     = Some (MkChan 1 [tt; tt; tt] false)
  /\ exists s',
       exec (repeat (LSelect CaseNewLeader) 3)
            (zk_state_after [LEnv EnvLeader; LEnv EnvLeader; LEnv EnvLeader])
       = Ok s'
       /\ r_reloadSignal s' = MkChan 1 [tt] false.
Proof.
  assert (R : reachable demo_app_zk
                (zk_state_after [LEnv EnvLeader; LEnv EnvLeader; LEnv EnvLeader])).
  { apply (zk_reachable [LEnv EnvLeader; LEnv EnvLeader; LEnv EnvLeader]).
    reflexivity. }
  split; [exact R|]. split; [reflexivity|].
  eexists. split.
  - exact (leader_burst_coalesces demo_app_zk _ 1 tt [tt; tt] false R eq_refl).
  - reflexivity.
Defined.

Lemma quiescent_reloader_has_timer_witness :
  reachable demo_app_ready
    (state_after [LWorker; LSelect CaseNewLeader; LWorker; LWorker])
  /\ quiescent (state_after [LWorker; LSelect CaseNewLeader; LWorker; LWorker])
  /\ r_timer (state_after [LWorker; LSelect CaseNewLeader; LWorker; LWorker])
     = Some 60000000000%Z.
Proof.
  assert (R : reachable demo_app_ready
                (state_after [LWorker; LSelect CaseNewLeader; LWorker; LWorker])).
  { apply (demo_reachable [LWorker; LSelect CaseNewLeader; LWorker; LWorker]).
    reflexivity. }
  assert (Q : quiescent
                (state_after [LWorker; LSelect CaseNewLeader; LWorker; LWorker])).
  { split; reflexivity. }
  split; [exact R|]. split; [exact Q|].
  exact (proj2 (quiescent_reloader_has_timer demo_app_ready _ R) Q).
Defined.

Lemma timer_driven_reload_cycle_witness :
  reachable demo_app_ready
    (state_after [LWorker; LSelect CaseNewLeader; LWorker; LWorker])
  /\ quiescent (state_after [LWorker; LSelect CaseNewLeader; LWorker; LWorker])
  /\ exists s',
       exec [LTimer; LWorker; LWorker]
            (state_after [LWorker; LSelect CaseNewLeader; LWorker; LWorker])
       = Ok s'
       /\ quiescent s'.
Proof.
  assert (R : reachable demo_app_ready
                (state_after [LWorker; LSelect CaseNewLeader; LWorker; LWorker])).
  { apply (demo_reachable [LWorker; LSelect CaseNewLeader; LWorker; LWorker]).
    reflexivity. }
  assert (Q : quiescent
                (state_after [LWorker; LSelect CaseNewLeader; LWorker; LWorker])).
  { split; reflexivity. }
  split; [exact R|]. split; [exact Q|].
  destruct (timer_driven_reload_cycle demo_app_ready _ R Q)
    as (s' & E & _ & Q' & _).
  exists s'. split; [exact E | exact Q'].
Defined.

Lemma Done_signals_completion_witness :
  run demo_app_ready = Ok (state_after [])
  /\ exec [LWorker; LSelect CaseNewLeader] (state_after [])
     = Ok (state_after [LWorker; LSelect CaseNewLeader])
  /\ chan_recv tt (Done (r_app (state_after [LWorker; LSelect CaseNewLeader]))) = Block.
Proof.
  split; [reflexivity|]. split; [reflexivity|].
  exact (proj1 (proj2 (Done_signals_completion demo_app_ready (state_after [])
                         [LWorker; LSelect CaseNewLeader] _ eq_refl eq_refl))).
Defined.

Lemma Config_repeatable_witness :
  slice_ok demo_heap (Masters (config demo_app_open)) = true
  /\ slice_ok demo_heap (Resolvers (config demo_app_open)) = true
  /\ config_view (Config demo_app_open (Config demo_app_open demo_heap).2)
     = config_view (Config demo_app_open demo_heap).
Proof.
  split; [reflexivity|]. split; [reflexivity|].
  exact (proj1 (Config_repeatable demo_app_open demo_heap eq_refl eq_refl)).
Defined.

Lemma startup_reload_not_lost_witness :
  Zk (config demo_app_ready) = EmptyString
  /\ run demo_app_ready = Ok (state_after [])
  /\ exists s,
       exec [LSelect CaseNewLeader; LWorker; LWorker; LWorker] (state_after [])
       = Ok s
       /\ reloads_done (r_trace s) = 1.
Proof.
  split; [reflexivity|]. split; [reflexivity|].
  destruct (startup_reload_not_lost demo_app_ready (state_after [])
              [LSelect CaseNewLeader; LWorker; LWorker; LWorker]
              eq_refl eq_refl (or_introl eq_refl)) as (s & E & H & _).
  exists s. split; [exact E | exact H].
Defined.
